(** * OutSystems warning scanner and module republisher

    A shallow embedding of the two command-line scripts of the repository,
    [outsystems-warning-scanner.js] (the scanner) and
    [outsystems-module-republisher.js] (the publisher), followed by the
    properties of the work queue, the retry loops, the category filter, the
    snapshot sort and the scan pipeline.

    JavaScript strings are modelled as [string]; the case conversions are the
    ASCII ones (a character outside [A-Z] / [a-z] is left alone).  The browser
    (Puppeteer) is an oracle: every page operation the scripts await is
    answered by a field of a record that describes one possible behaviour of
    the remote console. *)

From Stdlib Require Import ZArith Lia Ascii String List Sorted Permutation.
From stdpp Require Import base strings gmap list sorting.

Local Open Scope string_scope.
Local Open Scope list_scope.

(* ===================================================================== *)
(** * Part I: the programs *)
(* ===================================================================== *)

(** ** JavaScript string primitives used by the scripts *)
Module Js.

Definition isUpper (c : ascii) : bool :=
  let n := nat_of_ascii c in (65 <=? n)%nat && (n <=? 90)%nat.

Definition isLower (c : ascii) : bool :=
  let n := nat_of_ascii c in (97 <=? n)%nat && (n <=? 122)%nat.

Definition upperChar (c : ascii) : ascii :=
  if isLower c then ascii_of_nat (nat_of_ascii c - 32) else c.

Definition lowerChar (c : ascii) : ascii :=
  if isUpper c then ascii_of_nat (nat_of_ascii c + 32) else c.

(** [String.prototype.toUpperCase] *)
Fixpoint toUpperCase (s : string) : string :=
  match s with
  | EmptyString => EmptyString
  | String c s' => String (upperChar c) (toUpperCase s')
  end.

(** [String.prototype.toLowerCase] *)
Fixpoint toLowerCase (s : string) : string :=
  match s with
  | EmptyString => EmptyString
  | String c s' => String (lowerChar c) (toLowerCase s')
  end.

(** White space removed by [trim]: TAB, LF, VT, FF, CR and SPACE. *)
Definition isWhiteSpace (c : ascii) : bool :=
  let n := nat_of_ascii c in ((9 <=? n)%nat && (n <=? 13)%nat) || (n =? 32)%nat.

Fixpoint trimStart (s : string) : string :=
  match s with
  | EmptyString => EmptyString
  | String c s' => if isWhiteSpace c then trimStart s' else s
  end.

Fixpoint reverse (acc s : string) : string :=
  match s with
  | EmptyString => acc
  | String c s' => reverse (String c acc) s'
  end.

Definition trimEnd (s : string) : string :=
  reverse "" (trimStart (reverse "" s)).

(** [String.prototype.trim] *)
Definition trim (s : string) : string := trimEnd (trimStart s).

(** [s.split(sep)] for a one-character separator: the result is never
    empty, and the empty string splits into one empty piece. *)
Fixpoint split (sep : ascii) (s : string) : list string :=
  match s with
  | EmptyString => [EmptyString]
  | String c s' =>
      if Ascii.eqb c sep then EmptyString :: split sep s'
      else match split sep s' with
           | piece :: pieces => String c piece :: pieces
           | [] => [String c EmptyString]
           end
  end.

(** [Array.prototype.pop] on the fresh array returned by [split]: the last
    piece ([undefined], here the empty string, on an empty array). *)
Definition pop (pieces : list string) : string := List.last pieces "".

Fixpoint startsWith (p s : string) : bool :=
  match p, s with
  | EmptyString, _ => true
  | String a p', String b s' => Ascii.eqb a b && startsWith p' s'
  | String _ _, EmptyString => false
  end.

(** [hay.includes(needle)] on strings. *)
Fixpoint includes (hay needle : string) : bool :=
  startsWith needle hay ||
  match hay with
  | EmptyString => false
  | String _ hay' => includes hay' needle
  end.

(** [arr.includes(x)] on an array of strings. *)
Definition arrayIncludes (arr : list string) (x : string) : bool :=
  bool_decide (x ∈ arr).

(** [arr.indexOf(x)]: the first index holding [x], [-1] when there is none. *)
Fixpoint indexOfFrom (i : Z) (arr : list string) (x : string) : Z :=
  match arr with
  | [] => (-1)%Z
  | y :: arr' => if String.eqb y x then i else indexOfFrom (i + 1)%Z arr' x
  end.

Definition indexOf (arr : list string) (x : string) : Z := indexOfFrom 0 arr x.

(** JavaScript numbers as far as the sort comparator needs them. *)
Inductive number : Type :=
| Num (z : Z)
| Infinity
| NegInfinity
| NaN.

Definition number_eqb (a b : number) : bool :=   (* [a === b] *)
  match a, b with
  | Num x, Num y => (x =? y)%Z
  | Infinity, Infinity => true
  | NegInfinity, NegInfinity => true
  | _, _ => false
  end.

Definition sub (a b : number) : number :=        (* [a - b] *)
  match a, b with
  | Num x, Num y => Num (x - y)
  | NaN, _ | _, NaN => NaN
  | Infinity, Infinity => NaN
  | NegInfinity, NegInfinity => NaN
  | Infinity, _ => Infinity
  | NegInfinity, _ => NegInfinity
  | Num _, Infinity => NegInfinity
  | Num _, NegInfinity => Infinity
  end.

(** What [Array.prototype.sort] looks at in a comparator's answer: a
    positive answer puts the first argument after the second; [NaN] counts
    as [+0]. *)
Definition positive (v : number) : bool :=
  match v with
  | Num z => (0 <? z)%Z
  | Infinity => true
  | NegInfinity | NaN => false
  end.

(** A value tested by [if (!v)]: [null] / [undefined] is [None]. *)
Definition falsy (v : option string) : bool :=
  match v with
  | None => true
  | Some s => String.eqb s ""
  end.

(** *** [String.prototype.localeCompare]

    The scripts call [localeCompare] with no locale: the runtime then
    compares under its default collation, which for English (and for every
    language that does not tailor the Latin letters) is the root collation
    of CLDR.  That collation looks at the letters first, whatever their
    case: "_" stands before the digits, the digits before the letters, and
    a string before its extensions.  Only when two strings are the same up
    to case does it look at case, and then lower case stands first at the
    first difference.  The answer is [-1], [0] or [1].

    The model is exact for strings made of ASCII letters, digits and "_"
    ([isWord]); that names are such strings is a hypothesis of the
    theorems, not of this function. *)
Definition isDigit (c : ascii) : bool :=
  let n := nat_of_ascii c in (48 <=? n)%nat && (n <=? 57)%nat.

Definition isWordChar (c : ascii) : bool :=
  isUpper c || isLower c || isDigit c || Ascii.eqb c "_".

Fixpoint isWord (s : string) : bool :=
  match s with
  | EmptyString => true
  | String c s' => isWordChar c && isWord s'
  end.

(** First level: the letter without its case; "_" below the digits. *)
Definition primaryWeight (c : ascii) : ascii :=
  if Ascii.eqb c "_" then "001"%char else lowerChar c.

(** Last level: lower case (and what has no case) below upper case. *)
Definition caseWeight (c : ascii) : ascii :=
  if isUpper c then "002"%char else "001"%char.

Fixpoint collationKey (weight : ascii -> ascii) (s : string) : string :=
  match s with
  | EmptyString => EmptyString
  | String c s' => String (weight c) (collationKey weight s')
  end.

Definition localeCompare (a b : string) : Z :=
  match String.compare (collationKey primaryWeight a) (collationKey primaryWeight b) with
  | Lt => (-1)%Z
  | Gt => 1%Z
  | Eq =>
      match String.compare (collationKey caseWeight a) (collationKey caseWeight b) with
      | Lt => (-1)%Z
      | Eq => 0%Z
      | Gt => 1%Z
      end
  end.

(** Every character, for facts checked character by character. *)
Definition allAscii : list ascii := ascii_of_nat <$> seq 0 256.

End Js.

(** ** Configuration shared by the two scripts *)

Definition PROCESSING_HIERARCHY : list string :=
  ["IS"; "LS"; "TH"; "CS"; "BL"; "SBL"; "OS"; "API"; "AP"; "CW"; "UI"].

(** One item of work, as stored in [sorted-modules.json]. *)
Record ModuleRecord : Type := mkModule {
  url : string;
  name : string;
  suffix : string
}.

#[global] Instance ModuleRecord_eq_dec : EqDecision ModuleRecord.
Proof. solve_decision. Defined.

(** What the scripts print; the message texts are kept as constructors. *)
Inductive LogEvent : Type :=
| WarnNoValidLayers (layersArg : string)
| LogAvailableLayers (layers : list string)
| LogWillProcessLayers (layers : list string)
| LogFiltered (before after : nat) (layers : list string)
| LogSkippingExcluded (moduleName : string)
| LogUnknownSuffix (suffix moduleName : string)
| LogFoundOutdated (m : ModuleRecord)
| ErrProcessingRow
| LogSaving (count : nat)
| ErrDuringScanning
| LogSavedPartial
| LogScanFinishedWithErrors
| LogModulesReady (count : nat).

(** ** The command line: category filter

    [parseRequestedLayers] and [filterModulesByRequestedLayers] have the same
    text in the scanner and in the publisher. *)
Module Cli.

(** The object [layerMap] after the [forEach]: upper-cased layer name to
    the layer as spelled in the hierarchy.  Every property of
    [Object.prototype] has a lower-case letter in its name, so a lookup
    with an upper-cased key only ever sees these own properties. *)
Definition layerMap : gmap string string :=
  foldl (fun m layer => <[Js.toUpperCase layer := layer]> m) ∅ PROCESSING_HIERARCHY.

(** Truthiness of [layerMap[key]]: a missing property is [undefined]. *)
Definition truthy (v : option string) : bool := negb (Js.falsy v).

Definition parseRequestedLayers (args : list string)
  : option (list string) * list LogEvent :=
  match args with
  | [] => (None, [])
  | layersArg :: _ =>
      let layers :=
        (fun layer => default "" (layerMap !! Js.toUpperCase layer)) <$>
          List.filter (fun layer => truthy (layerMap !! Js.toUpperCase layer))
            (Js.trim <$> Js.split "," layersArg) in
      if (length layers =? 0)%nat
      then (None, [WarnNoValidLayers layersArg;
                   LogAvailableLayers PROCESSING_HIERARCHY])
      else (Some layers, [LogWillProcessLayers layers])
  end.

Definition filterModulesByRequestedLayers
    (modules : list ModuleRecord) (requestedLayers : option (list string))
  : list ModuleRecord * list LogEvent :=
  match requestedLayers with
  | None => (modules, [])
  | Some layers =>
      let filtered :=
        List.filter (fun module => Js.arrayIncludes layers (suffix module)) modules in
      (filtered, [LogFiltered (length modules) (length filtered) layers])
  end.

(** The contract of the category argument in the words of the
    specification: a token stands for the layer of the hierarchy that equals
    it up to letter case; the requested layers are the layers the tokens of
    the comma-separated argument stand for. *)
Definition matchLayer (token : string) : option string :=
  List.find (fun layer => String.eqb (Js.toUpperCase layer) (Js.toUpperCase token))
    PROCESSING_HIERARCHY.

Definition recognisedLayers (layersArg : string) : list string :=
  omap matchLayer (Js.trim <$> Js.split "," layersArg).

End Cli.

(** ** The scanner: [outsystems-warning-scanner.js] *)
Module Scanner.

(** One [<tr>] of the listing as the scraper reads it.  [None] stands for
    a rejected promise (missing element, detached node). *)
Record Row : Type := mkRow {
  warningIcon : option bool;     (* row.$("img[src*='Icon_Warning.svg']") is an element *)
  moduleLink : option string;    (* row.$eval("a.link", a => a.href) *)
  moduleName : option string     (* row.$eval("a.link span[data-name='espaceedit']", ...) *)
}.

(** How the last page read ends the pagination. *)
Inductive PageEnd : Type :=
| NextAbsent        (* no Next button: break *)
| NextDisabled      (* Next button disabled: break *)
| NextFails.        (* the probe, the click or waitForFunction rejects *)

(** The listing as pagination unfolds: what the [while (true)] loop meets. *)
Inductive Listing : Type :=
| NoModulesToShow                                   (* the title says so: break *)
| ListingCrash                                      (* page.evaluate or page.$$ rejects *)
| LastPage (rows : list Row) (next : PageEnd)
| NextPage (rows : list Row) (following : Listing). (* Next clicked, table refreshed *)

(** The JavaScript [Map] named [modules]: keys in insertion order. *)
Definition mapHas (modules : list (string * ModuleRecord)) (key : string) : bool :=
  bool_decide (key ∈ modules.*1).

Fixpoint mapSet (modules : list (string * ModuleRecord)) (key : string)
    (value : ModuleRecord) : list (string * ModuleRecord) :=
  match modules with
  | [] => [(key, value)]
  | (k, v) :: modules' =>
      if String.eqb k key then (key, value) :: modules'
      else (k, v) :: mapSet modules' key value
  end.

Definition mapValues (modules : list (string * ModuleRecord)) : list ModuleRecord :=
  modules.*2.

(** The body of [for (let row of rows)], with its [try] / [catch]. *)
Definition scrapeRow (modules : list (string * ModuleRecord)) (row : Row)
  : list (string * ModuleRecord) * list LogEvent :=
  match warningIcon row with
  | None => (modules, [ErrProcessingRow])
  | Some false => (modules, [])
  | Some true =>
      match moduleLink row, moduleName row with
      | Some moduleLink, Some moduleName =>
          if Js.includes (Js.toLowerCase moduleName) "sandbox"
          then (modules, [LogSkippingExcluded moduleName])
          else
            let popped := Js.pop (Js.split "_" moduleName) in
            let unknown := negb (Js.arrayIncludes PROCESSING_HIERARCHY popped) in
            let suffix := if unknown then "UI" else popped in
            let log1 := if unknown then [LogUnknownSuffix popped moduleName] else [] in
            if negb (mapHas modules moduleLink)
            then
              let m := {| url := moduleLink; name := moduleName; suffix := suffix |} in
              (mapSet modules moduleLink m, log1 ++ [LogFoundOutdated m])
            else (modules, log1)
      | _, _ => (modules, [ErrProcessingRow])
      end
  end.

Fixpoint scrapeRows (modules : list (string * ModuleRecord)) (rows : list Row)
  : list (string * ModuleRecord) * list LogEvent :=
  match rows with
  | [] => (modules, [])
  | row :: rows' =>
      let '(modules1, log1) := scrapeRow modules row in
      let '(modules2, log2) := scrapeRows modules1 rows' in
      (modules2, log1 ++ log2)
  end.

(** How the pagination loop ends.  When it throws, the [Map] is a local of
    the scraper and is lost to the caller: [Throw] carries it only so that
    theorems can speak about what had been accumulated. *)
Inductive LoopExit : Type :=
| Break (modules : list (string * ModuleRecord))
| Throw (accumulated : list (string * ModuleRecord)).

Fixpoint scrapeLoop (modules : list (string * ModuleRecord)) (view : Listing)
  : LoopExit * list LogEvent :=
  match view with
  | NoModulesToShow => (Break modules, [])
  | ListingCrash => (Throw modules, [])
  | LastPage rows next =>
      let '(modules1, log1) := scrapeRows modules rows in
      match next with
      | NextAbsent | NextDisabled => (Break modules1, log1)
      | NextFails => (Throw modules1, log1)
      end
  | NextPage rows following =>
      let '(modules1, log1) := scrapeRows modules rows in
      let '(exit, log2) := scrapeLoop modules1 following in
      (exit, log1 ++ log2)
  end.

Inductive Scraped : Type :=
| Returned (modules : list ModuleRecord)
| Threw (accumulated : list ModuleRecord).

(** [recheck] is what [page.$$("table tbody tr")] answers after the loop
    ([None]: it rejects); it is only asked when the [Map] is empty. *)
Definition scrapeModulesWithWarnings (view : Listing) (recheck : option (list Row))
  : Scraped * list LogEvent :=
  match scrapeLoop [] view with
  | (Throw modules, log1) => (Threw (mapValues modules), log1)
  | (Break modules, log1) =>
      if (length modules =? 0)%nat
      then match recheck with
           | None => (Threw (mapValues modules), log1)
           | Some rows =>
               let '(modules1, log2) := scrapeRows modules rows in
               (Returned (mapValues modules1), log1 ++ log2)
           end
      else (Returned (mapValues modules), log1)
  end.

(** The records the scraper holds when it stops, returned or not. *)
Definition scrapedRecords (result : Scraped) : list ModuleRecord :=
  match result with
  | Returned modules => modules
  | Threw accumulated => accumulated
  end.

(** The record a row is captured as: it carries the warning icon, its link
    and its name can be read, and its name does not hold "sandbox". *)
Definition captured (row : Row) : option ModuleRecord :=
  match warningIcon row, moduleLink row, moduleName row with
  | Some true, Some moduleLink, Some moduleName =>
      if Js.includes (Js.toLowerCase moduleName) "sandbox" then None
      else
        let popped := Js.pop (Js.split "_" moduleName) in
        Some {| url := moduleLink;
                name := moduleName;
                suffix := if Js.arrayIncludes PROCESSING_HIERARCHY popped
                          then popped else "UI" |}
  | _, _, _ => None
  end.

(** The rows of the pages the loop reads, in reading order. *)
Fixpoint listed (view : Listing) : list Row :=
  match view with
  | NoModulesToShow | ListingCrash => []
  | LastPage rows _ => rows
  | NextPage rows following => rows ++ listed following
  end.

(** Whether the loop ends by an exception. *)
Fixpoint loopThrows (view : Listing) : bool :=
  match view with
  | NoModulesToShow => false
  | ListingCrash => true
  | LastPage _ NextFails => true
  | LastPage _ _ => false
  | NextPage _ following => loopThrows following
  end.

(** All rows read: those of the loop and, when the loop ended normally and
    captured nothing, those of the second look at the table. *)
Definition rowsRead (view : Listing) (recheck : option (list Row)) : list Row :=
  if loopThrows view then listed view
  else match omap captured (listed view) with
       | [] => listed view ++ default [] recheck
       | _ :: _ => listed view
       end.

(** Deduplication in the words of the specification: of the records with
    one url, the first seen is kept. *)
Fixpoint firstSeen (seen : list string) (records : list ModuleRecord)
  : list ModuleRecord :=
  match records with
  | [] => []
  | r :: records' =>
      if bool_decide (url r ∈ seen) then firstSeen seen records'
      else r :: firstSeen (url r :: seen) records'
  end.

Section Sort.

(** [String.prototype.localeCompare] of the runtime: negative, zero or
    positive.  The collation is the host's; it is a parameter here, and
    [Js.localeCompare] is the one a host has by default. *)
Variable localeCompare : string -> string -> Z.

(** [indexOf(s) !== -1 ? indexOf(s) : Infinity] *)
Definition rankOf (s : string) : Js.number :=
  if negb (Js.indexOf PROCESSING_HIERARCHY s =? -1)%Z
  then Js.Num (Js.indexOf PROCESSING_HIERARCHY s)
  else Js.Infinity.

(** The comparator handed to [sort].  [rankA] and [rankB] are [const]:
    the two assignments [rankA = Infinity + 1] would raise a [TypeError]
    ([None]) if they were ever reached. *)
Definition compareModules (a b : ModuleRecord) : option Js.number :=
  let rankA := rankOf (suffix a) in
  let rankB := rankOf (suffix b) in
  if Js.number_eqb rankA Js.Infinity && String.eqb (suffix a) "UI" then None
  else if Js.number_eqb rankB Js.Infinity && String.eqb (suffix b) "UI" then None
  else if Js.number_eqb rankA rankB
       then Some (Js.Num (localeCompare (name a) (name b)))
       else Some (Js.sub rankA rankB).

(** [Array.prototype.sort(comparator)].  The language requires the sort
    to be stable and, for a consistent comparator, to return the sorted
    permutation; that array is unique, and a stable insertion sort
    computes it.  An exception of the comparator aborts the sort. *)
Fixpoint insertSorted (x : ModuleRecord) (sorted : list ModuleRecord)
  : option (list ModuleRecord) :=
  match sorted with
  | [] => Some [x]
  | y :: sorted' =>
      match compareModules x y with
      | None => None
      | Some v =>
          if Js.positive v
          then match insertSorted x sorted' with
               | Some r => Some (y :: r)
               | None => None
               end
          else Some (x :: sorted)
      end
  end.

Fixpoint arraySort (modules : list ModuleRecord) : option (list ModuleRecord) :=
  match modules with
  | [] => Some []
  | x :: modules' =>
      match arraySort modules' with
      | Some sorted => insertSorted x sorted
      | None => None
      end
  end.

Definition sortModulesByHierarchy (modules : list ModuleRecord)
  : option (list ModuleRecord) := arraySort modules.

(** The order of the snapshot in the words of the specification: category
    rank is the position in the hierarchy, an unrecognised category ranks
    after every recognised one, and the name decides between equal ranks. *)
Fixpoint position (layers : list string) (s : string) : nat :=
  match layers with
  | [] => 0
  | layer :: layers' => if String.eqb layer s then 0 else S (position layers' s)
  end.

Definition categoryRank (s : string) : nat := position PROCESSING_HIERARCHY s.

Definition inSnapshotOrder (a b : ModuleRecord) : Prop :=
  categoryRank (suffix a) < categoryRank (suffix b)
  \/ (categoryRank (suffix a) = categoryRank (suffix b)
      /\ (localeCompare (name a) (name b) <= 0)%Z).

(** Records the order does not tell apart. *)
Definition tiedWith (k x : ModuleRecord) : bool :=
  (categoryRank (suffix k) =? categoryRank (suffix x))%nat
  && (localeCompare (name k) (name x) =? 0)%Z.

(** The remote console and the file system during one scan. *)
Record Console : Type := mkConsole {
  loginOk : bool;                   (* login(page) resolves *)
  listPageOk : bool;                (* page.goto(ESPACES_LIST_URL) resolves *)
  warningFilterOk : bool;           (* applyWarningFilter(page) resolves *)
  listing : Listing;
  recheck : option (list Row);
  writeOk : nat -> bool             (* the n-th fs.writeFileSync succeeds *)
}.

Inductive Settled : Type :=
| Resolved (modules : option (list ModuleRecord))   (* [None]: undefined *)
| Rejected.

Record ScanRun : Type := mkScanRun {
  settled : Settled;
  snapshotFile : option (list ModuleRecord);   (* sorted-modules.json *)
  scanLog : list LogEvent
}.

(** The [catch] block of [scanModules]; [modules] is the variable of the
    enclosing function, [writes] the number of writes tried so far. *)
Definition scanCatch (requestedLayers : option (list string)) (c : Console)
    (file0 : option (list ModuleRecord)) (modules : list ModuleRecord)
    (writes : nat) (log0 : list LogEvent) : ScanRun :=
  if (0 <? length modules)%nat
  then
    let '(filteredModules, log1) :=
      Cli.filterModulesByRequestedLayers modules requestedLayers in
    let log2 := log0 ++ [ErrDuringScanning] ++ log1 ++ [LogSaving (length filteredModules)] in
    if writeOk c writes
    then {| settled := Resolved None;
            snapshotFile := Some filteredModules;
            scanLog := log2 ++ [LogSavedPartial] |}
    else {| settled := Rejected; snapshotFile := file0; scanLog := log2 |}
  else {| settled := Resolved None;
          snapshotFile := file0;
          scanLog := log0 ++ [ErrDuringScanning] |}.

Definition scanModules (requestedLayers : option (list string)) (c : Console)
    (file0 : option (list ModuleRecord)) : ScanRun :=
  let modules := [] in
  if negb (loginOk c && listPageOk c && warningFilterOk c)
  then scanCatch requestedLayers c file0 modules 0 []
  else
    match scrapeModulesWithWarnings (listing c) (recheck c) with
    | (Threw _, log1) => scanCatch requestedLayers c file0 modules 0 log1
    | (Returned modules, log1) =>
        match sortModulesByHierarchy modules with
        | None => scanCatch requestedLayers c file0 modules 0 log1
        | Some sortedModules =>
            (* [sort] works in place: [modules] is now the sorted array *)
            let modules := sortedModules in
            let '(filteredModules, log2) :=
              Cli.filterModulesByRequestedLayers sortedModules requestedLayers in
            let log3 := log1 ++ log2 ++ [LogSaving (length filteredModules)] in
            if writeOk c 0
            then {| settled := Resolved (Some filteredModules);
                    snapshotFile := Some filteredModules;
                    scanLog := log3 |}
            else scanCatch requestedLayers c file0 modules 1 log3
        end
    end.

(** The script: parse the arguments, scan, report. *)
Definition main (args : list string) (c : Console)
    (file0 : option (list ModuleRecord)) : ScanRun :=
  let '(requestedLayers, log0) := Cli.parseRequestedLayers args in
  let run := scanModules requestedLayers c file0 in
  match settled run with
  | Resolved None =>
      {| settled := settled run; snapshotFile := snapshotFile run;
         scanLog := log0 ++ scanLog run ++ [LogScanFinishedWithErrors] |}
  | Resolved (Some modules) =>
      {| settled := settled run; snapshotFile := snapshotFile run;
         scanLog := log0 ++ scanLog run ++ [LogModulesReady (length modules)] |}
  | Rejected =>
      {| settled := settled run; snapshotFile := snapshotFile run;
         scanLog := log0 ++ scanLog run |}
  end.

End Sort.

End Scanner.

(** ** The publisher: [outsystems-module-republisher.js] *)
Module Publisher.

Definition BASE_DOMAIN : string := "wodify.com".
Definition RETRY_LIMIT : nat := 3.
Definition TABS_PER_SUBDOMAIN : nat := 2.

Definition SUBDOMAINS (ENV : string) : list string :=
  [ENV; ENV +:+ "-coreap"; ENV +:+ "-clientapp"; ENV +:+ "-coreos"; ENV +:+ "sc"].

(** The console of a subdomain, and the address [login] opens on it. *)
Definition groupOrigin (subdomain : string) : string :=
  "https://" +:+ subdomain +:+ "." +:+ BASE_DOMAIN +:+ "/".

Definition loginUrl (subdomain : string) : string :=
  groupOrigin subdomain +:+ "ServiceCenter/".

Inductive PubEvent : Type :=
| LogNavigating (url : string) (attempt : nat)
| LogLoaded (url : string)
| ErrNavigating (url : string)
| ErrFailedToLoad (url : string)
| LogThreadNavigating (url : string) (attempt : nat)
| LogThreadLoaded (url : string)
| LogPublishStarted
| LogNothingToPublish
| ErrRetrying (url : string) (retries : nat)
| ErrMaxRetries (url : string)
| LogProcessing (subdomain url : string)
| LogNoRepublishNeeded (subdomain url : string)
| ErrDuringProcessing (subdomain : string)
| LogFinished (subdomain : string).

(** *** Task queue: the globals [taskQueue] and [taskIndex] *)
Record Queue : Type := mkQueue {
  taskQueue : list string;
  taskIndex : nat
}.

(** [getNextTask]; [None] is [null].  The function has no [await]: a call
    runs to its end before any other tab runs. *)
Definition getNextTask (q : Queue) : option string * Queue :=
  if bool_decide (taskIndex q < length (taskQueue q))
  then (taskQueue q !! taskIndex q,
        {| taskQueue := taskQueue q; taskIndex := S (taskIndex q) |})
  else (None, q).

(** *** Retry loops

    The loops are bounded by [fuel]; [None] as a result means that the
    fuel ran out, which the entry points below never let happen. *)

(** [navigateWithRetries]: [goto k] tells whether the [page.goto] made
    after [k] failures resolves.  The result is [true], [false] or
    [undefined] (loop left through its condition). *)
Fixpoint navigateLoop (goto : nat -> bool) (url : string) (fuel retries : nat)
  : option (option bool) * list PubEvent :=
  match fuel with
  | 0 => (None, [])
  | S fuel' =>
      if (retries <? RETRY_LIMIT)%nat
      then
        if goto retries
        then (Some (Some true), [LogNavigating url (retries + 1); LogLoaded url])
        else
          let retries1 := S retries in
          if (retries1 =? RETRY_LIMIT)%nat
          then (Some (Some false),
                [LogNavigating url (retries + 1); ErrNavigating url; ErrFailedToLoad url])
          else
            let '(r, log1) := navigateLoop goto url fuel' retries1 in
            (r, [LogNavigating url (retries + 1); ErrNavigating url] ++ log1)
      else (Some None, [])
  end.

Definition navigateWithRetries (goto : nat -> bool) (url : string)
  : option (option bool) * list PubEvent :=
  navigateLoop goto url RETRY_LIMIT 0.

(** The three ways the [try] body of [processPublishPage] can end.  A
    rejection of any awaited call is one way: the log of such an attempt
    holds the lines every failed attempt prints, and leaves out the line
    [Successfully loaded], which is printed when the rejection comes after
    [goto]. *)
Inductive Attempt : Type :=
| AttemptThrows        (* goto, waitForSelector, click or waitForFunction rejects *)
| AttemptPublishes     (* a published row has a Publish button: clicked, progress seen *)
| AttemptFindsNothing. (* no row has both *)

(** Every path of [processPublishPage] returns [undefined]; the exit tells
    which [return] was taken. *)
Inductive PublishExit : Type :=
| PublishStarted
| NothingToPublish
| MaxRetriesReached
| LoopEnded.

Fixpoint publishLoop (attempt : nat -> Attempt) (url : string) (fuel retries : nat)
  : option PublishExit * list PubEvent :=
  match fuel with
  | 0 => (None, [])
  | S fuel' =>
      if (retries <? RETRY_LIMIT)%nat
      then
        match attempt retries with
        | AttemptPublishes =>
            (Some PublishStarted,
             [LogThreadNavigating url (retries + 1); LogThreadLoaded url; LogPublishStarted])
        | AttemptFindsNothing =>
            (Some NothingToPublish,
             [LogThreadNavigating url (retries + 1); LogThreadLoaded url; LogNothingToPublish])
        | AttemptThrows =>
            let retries1 := S retries in
            if (retries1 =? RETRY_LIMIT)%nat
            then (Some MaxRetriesReached,
                  [LogThreadNavigating url (retries + 1); ErrRetrying url retries1;
                   ErrMaxRetries url])
            else
              let '(r, log1) := publishLoop attempt url fuel' retries1 in
              (r, [LogThreadNavigating url (retries + 1); ErrRetrying url retries1] ++ log1)
        end
      else (Some LoopEnded, [])
  end.

Definition processPublishPage (attempt : nat -> Attempt) (url : string)
  : option PublishExit * list PubEvent :=
  publishLoop attempt url RETRY_LIMIT 0.

(** *** Status check *)
Inductive StatusProbe : Type :=
| ProbeRejects     (* page.$ rejects *)
| LabelAbsent      (* no status label *)
| IconFound        (* the warning icon shows within WARNING_CHECK_TIMEOUT *)
| IconTimeout.     (* waitForSelector times out *)

Definition isModuleInWarning (probe : StatusProbe) : bool :=
  match probe with
  | IconFound => true
  | ProbeRejects | LabelAbsent | IconTimeout => false
  end.

(** *** The address rewrite of [processTab]

    [task.replace(/^https:\/\/[^.]+/, `https://${subdomain}`)]: the match
    is anchored at the start, and [[^.]+] takes the longest non-empty run
    of characters other than the dot.  [subdomain] is a host label; that
    it holds no [$] (which the replacement would expand) is a hypothesis
    of the theorems, not of this function. *)
Fixpoint dropPrefix (p s : string) : option string :=
  match p, s with
  | EmptyString, _ => Some s
  | String a p', String b s' => if Ascii.eqb a b then dropPrefix p' s' else None
  | String _ _, EmptyString => None
  end.

Fixpoint spanNotDot (s : string) : string * string :=
  match s with
  | EmptyString => (EmptyString, EmptyString)
  | String c s' =>
      if Ascii.eqb c "." then (EmptyString, s)
      else let '(label, rest) := spanNotDot s' in (String c label, rest)
  end.

Definition replaceHost (subdomain task : string) : string :=
  match dropPrefix "https://" task with
  | None => task
  | Some afterScheme =>
      match spanNotDot afterScheme with
      | (EmptyString, _) => task
      | (String _ _, rest) => "https://" +:+ subdomain +:+ rest
      end
  end.

(** *** Tabs and groups *)

(** The remote consoles during one publish run. *)
Record Browser : Type := mkBrowser {
  loginOk : string -> bool;                    (* login(loginPage, subdomain) resolves *)
  gotoOk : string -> bool;                     (* the page.goto(url) of processTab resolves *)
  statusProbe : string -> StatusProbe;
  publishAttempt : string -> nat -> Attempt
}.

(** How the [while (true)] of a tab was left. *)
Inductive TabExit : Type :=
| QueueEmpty     (* [if (!task) break] *)
| Crashed.       (* an exception reached the [catch] around the loop *)

#[global] Instance TabExit_eq_dec : EqDecision TabExit.
Proof. solve_decision. Defined.

Record Claim : Type := mkClaim {
  claimSubdomain : string;
  claimTab : nat;
  claimTask : string
}.

#[global] Instance Claim_eq_dec : EqDecision Claim.
Proof. solve_decision. Defined.

Record Pool : Type := mkPool {
  queue : Queue;
  exited : gmap (string * nat) TabExit;
  claims : list Claim;             (* every task a tab took, oldest first *)
  visited : list string;           (* every address a tab navigated to first *)
  pubLog : list PubEvent
}.

(** One turn of the [while (true)] loop of [processTab] for the tab
    [(subdomain, tab)].  Tabs share nothing but the queue, which is only
    touched by [getNextTask]; a run of the pool is therefore described by
    the order in which the tabs take their turns. *)
Definition tabTurn (b : Browser) (subdomain : string) (tab : nat) (p : Pool) : Pool :=
  if negb (loginOk b subdomain) then p          (* processThread never opened the tab *)
  else
    match exited p !! (subdomain, tab) with
    | Some _ => p
    | None =>
        let '(task, q) := getNextTask (queue p) in
        if Js.falsy task
        then {| queue := q;
                exited := <[(subdomain, tab) := QueueEmpty]> (exited p);
                claims := claims p;
                visited := visited p;
                pubLog := pubLog p ++ [LogFinished subdomain] |}
        else
          let task := default "" task in
          let url := replaceHost subdomain task in
          let claims1 := claims p ++ [mkClaim subdomain tab task] in
          let visited1 := visited p ++ [url] in
          let log1 := pubLog p ++ [LogProcessing subdomain url] in
          if gotoOk b url
          then
            if isModuleInWarning (statusProbe b url)
            then
              let '(_, log2) := processPublishPage (publishAttempt b url) url in
              {| queue := q; exited := exited p; claims := claims1;
                 visited := visited1; pubLog := log1 ++ log2 |}
            else
              {| queue := q; exited := exited p; claims := claims1;
                 visited := visited1;
                 pubLog := log1 ++ [LogNoRepublishNeeded subdomain url] |}
          else
            {| queue := q;
               exited := <[(subdomain, tab) := Crashed]> (exited p);
               claims := claims1;
               visited := visited1;
               pubLog := log1 ++ [ErrDuringProcessing subdomain; LogFinished subdomain] |}
    end.

(** The tabs [processURLs] starts: [TABS_PER_SUBDOMAIN] for each subdomain. *)
Definition tabs (ENV : string) : list (string * nat) :=
  subdomain ← SUBDOMAINS ENV; (fun tab => (subdomain, tab)) <$> seq 0 TABS_PER_SUBDOMAIN.

Definition runSchedule (ENV : string) (b : Browser) (schedule : list (string * nat))
    (p : Pool) : Pool :=
  foldl (fun p w => if bool_decide (w ∈ tabs ENV) then tabTurn b w.1 w.2 p else p)
    p schedule.

(** [processURLs]: [file] is the content of [sorted-modules.json], [None]
    when the file does not exist. *)
Definition processURLs (ENV : string) (requestedLayers : option (list string))
    (file : option (list ModuleRecord)) (b : Browser)
    (schedule : list (string * nat)) : Pool :=
  let start := {| queue := {| taskQueue := []; taskIndex := 0 |};
                  exited := ∅; claims := []; visited := []; pubLog := [] |} in
  match file with
  | None => start
  | Some moduleData =>
      let '(filteredModules, _) :=
        Cli.filterModulesByRequestedLayers moduleData requestedLayers in
      let pushed := taskQueue (queue start) ++ (url <$> filteredModules) in
      runSchedule ENV b schedule
        {| queue := {| taskQueue := pushed; taskIndex := taskIndex (queue start) |};
           exited := exited start; claims := claims start;
           visited := visited start; pubLog := pubLog start |}
  end.

(** Every tab takes a turn, [rounds] times over. *)
Fixpoint roundRobin (ENV : string) (rounds : nat) : list (string * nat) :=
  match rounds with
  | 0 => []
  | S rounds' => tabs ENV ++ roundRobin ENV rounds'
  end.

(** The tasks a group took, over all its tabs. *)
Definition claimedBy (subdomain : string) (p : Pool) : list string :=
  claimTask <$> List.filter (fun c => String.eqb (claimSubdomain c) subdomain) (claims p).

(** How often a task was taken, over all groups. *)
Definition timesClaimed (task : string) (p : Pool) : nat :=
  length (List.filter (fun c => String.eqb (claimTask c) task) (claims p)).

(** Every tab of the pool has left its loop. *)
Definition allTabsExited (ENV : string) (p : Pool) : Prop :=
  Forall (fun w => is_Some (exited p !! w)) (tabs ENV).

(** Per-group dispatch: each group takes each item exactly once. *)
Definition eachGroupTakesEachItemOnce (ENV : string) (items : list string) (p : Pool)
  : Prop :=
  Forall (fun subdomain =>
            Forall (fun item =>
                      length (List.filter (String.eqb item) (claimedBy subdomain p)) = 1)
              items)
    (SUBDOMAINS ENV).

(** Calls of [getNextTask] by the workers named in [callers], in that
    order: who called and what came back. *)
Fixpoint drawAll (callers : list nat) (q : Queue) : list (nat * option string) :=
  match callers with
  | [] => []
  | w :: callers' =>
      let '(task, q1) := getNextTask q in (w, task) :: drawAll callers' q1
  end.

(** The successful claims of a sequence of calls, oldest first. *)
Definition claimed (draws : list (nat * option string)) : list string :=
  omap snd draws.

(** The number of attempts a retry loop announced. *)
Definition attemptsMade (log : list PubEvent) : nat :=
  length (List.filter (fun e => match e with
                                | LogNavigating _ _ | LogThreadNavigating _ _ => true
                                | _ => false
                                end) log).

(** An address on the console of a group: it extends the origin that
    [login] opens for the subdomain. *)
Definition onGroupEndpoint (subdomain address : string) : bool :=
  Js.startsWith (groupOrigin subdomain) address.

(** A browser for which every page loads, no module is in warning. *)
Definition calmBrowser : Browser :=
  {| loginOk := fun _ => true;
     gotoOk := fun _ => true;
     statusProbe := fun _ => LabelAbsent;
     publishAttempt := fun _ _ => AttemptFindsNothing |}.

(** A browser whose consoles accept the login and then time out on every
    navigation. *)
Definition stalledBrowser : Browser :=
  {| loginOk := fun _ => true;
     gotoOk := fun _ => false;
     statusProbe := fun _ => LabelAbsent;
     publishAttempt := fun _ _ => AttemptThrows |}.

(** A browser whose consoles time out on the page of one module only. *)
Definition flakyBrowser (stuck : string) : Browser :=
  {| loginOk := fun _ => true;
     gotoOk := fun address => negb (Js.includes address stuck);
     statusProbe := fun _ => LabelAbsent;
     publishAttempt := fun _ _ => AttemptFindsNothing |}.

(** The script: parse the arguments, then [processURLs]. *)
Definition main (ENV : string) (args : list string)
    (file : option (list ModuleRecord)) (b : Browser)
    (schedule : list (string * nat)) : Pool :=
  let '(requestedLayers, _) := Cli.parseRequestedLayers args in
  processURLs ENV requestedLayers file b schedule.

End Publisher.

(** ** Sample data used by the examples below *)
Module Sample.

Definition billing_cs : ModuleRecord :=
  mkModule "https://devsc.wodify.com/ServiceCenter/eSpace_Edit.aspx?eSpaceId=7"
    "Billing_CS" "CS".

Definition billing_ui : ModuleRecord :=
  mkModule "https://devsc.wodify.com/ServiceCenter/eSpace_Edit.aspx?eSpaceId=9"
    "Billing_UI" "UI".

Definition one_record : list ModuleRecord := [billing_cs].

Definition two_records : list ModuleRecord := [billing_cs; billing_ui].

Definition numbered (n : string) : ModuleRecord :=
  mkModule ("https://devsc.wodify.com/ServiceCenter/eSpace_Edit.aspx?eSpaceId=" +:+ n)
    ("Module" +:+ n +:+ "_CS") "CS".

Definition eleven_records : list ModuleRecord :=
  numbered <$> ["11"; "12"; "13"; "14"; "15"; "16"; "17"; "18"; "19"; "20"; "21"].

(** A record whose address is on another base domain. *)
Definition foreign_record : ModuleRecord :=
  mkModule "https://devsc.example.org/ServiceCenter/eSpace_Edit.aspx?eSpaceId=7"
    "Billing_CS" "CS".

(** A record whose address is not an [https] one. *)
Definition plain_http_record : ModuleRecord :=
  mkModule "http://devsc.wodify.com/ServiceCenter/eSpace_Edit.aspx?eSpaceId=7"
    "Billing_CS" "CS".

(** An action that fails twice and then succeeds. *)
Definition third_time_lucky (k : nat) : bool := (2 <=? k)%nat.

Definition publishes_at_third (k : nat) : Publisher.Attempt :=
  if (k <? 2)%nat then Publisher.AttemptThrows else Publisher.AttemptPublishes.

(** Comparison of names by code units: what [<] does on strings, the
    case-sensitive lexical order; a consistent comparator. *)
Definition codeUnitCompare (a b : string) : Z :=
  match String.compare a b with
  | Lt => (-1)%Z
  | Eq => 0%Z
  | Gt => 1%Z
  end.

(** Rows of a listing page: a module seen twice under two names, a sandbox
    module in warning, a module without warning. *)
Definition warning_row (link nm : string) : Scanner.Row :=
  Scanner.mkRow (Some true) (Some link) (Some nm).

Definition page_rows : list Scanner.Row :=
  [ warning_row "a" "X_OS";
    warning_row "b" "Y_UI";
    warning_row "c" "Team_SandBox_CS";
    Scanner.mkRow (Some false) (Some "d") (Some "Quiet_BL");
    warning_row "a" "X_OS_dup" ].

(** A console whose listing shows [page_rows] and then fails to turn the
    page: the wait for the refreshed table times out. *)
Definition stuck_console : Scanner.Console :=
  Scanner.mkConsole true true true
    (Scanner.LastPage page_rows Scanner.NextFails) None (fun _ => true).

(** A console whose listing shows [page_rows] on its only page. *)
Definition single_page_console : Scanner.Console :=
  Scanner.mkConsole true true true
    (Scanner.LastPage page_rows Scanner.NextAbsent) None (fun _ => true).

End Sample.

(** ** Start of the two scripts: environment, help, arguments *)
Module Startup.

(** [process.env] after [dotenv] has loaded the file; [None] is an unset
    variable. *)
Record Environment : Type := mkEnvironment {
  WODIFY_USERNAME : option string;
  WODIFY_PASSWORD : option string;
  WODIFY_ENV : option string
}.

(** How a script ends. *)
Inductive ScriptEnd (A : Type) : Type :=
| MissingEnvironment             (* throw new Error('Missing required environment variables') *)
| HelpShown                      (* console.log(USAGE); process.exit(0) *)
| MissingCredentials             (* throw new Error('Missing credentials ...') *)
| Completed (run : A).

Arguments MissingEnvironment {A}.
Arguments HelpShown {A}.
Arguments MissingCredentials {A}.
Arguments Completed {A} run.

(** [!process.env.WODIFY_USERNAME || !process.env.WODIFY_PASSWORD ||
    !process.env.WODIFY_ENV] *)
Definition environmentIncomplete (env : Environment) : bool :=
  Js.falsy (WODIFY_USERNAME env) || Js.falsy (WODIFY_PASSWORD env)
  || Js.falsy (WODIFY_ENV env).

(** [args.includes('-h') || args.includes('--help')] *)
Definition helpRequested (args : list string) : bool :=
  Js.arrayIncludes args "-h" || Js.arrayIncludes args "--help".

(** The scanner script from its first line to the end of the scan. *)
Definition scanner (localeCompare : string -> string -> Z) (env : Environment)
    (args : list string) (c : Scanner.Console) (file0 : option (list ModuleRecord))
  : ScriptEnd Scanner.ScanRun :=
  if environmentIncomplete env then MissingEnvironment
  else if helpRequested args then HelpShown
  else Completed (Scanner.main localeCompare args c file0).

(** The publisher script: after the arguments are parsed it checks the
    credentials a second time ([!USERNAME || !PASSWORD]). *)
Definition publisher (env : Environment) (args : list string)
    (file : option (list ModuleRecord)) (b : Publisher.Browser)
    (schedule : list (string * nat)) : ScriptEnd Publisher.Pool :=
  if environmentIncomplete env then MissingEnvironment
  else if helpRequested args then HelpShown
  else
    let ENV := default "" (WODIFY_ENV env) in
    if Js.falsy (WODIFY_USERNAME env) || Js.falsy (WODIFY_PASSWORD env)
    then MissingCredentials
    else Completed (Publisher.main ENV args file b schedule).

End Startup.

(** ** The snapshot file on disk *)
Module Files.

Definition OUTPUT_FILE : string := "sorted-modules.json".

(** [path.resolve(dir, file)] for an absolute, normalised [dir] and a plain
    file name; the same path is what a relative [file] means to [fs] when
    [dir] is the working directory. *)
Definition resolve (dir file : string) : string := dir +:+ "/" +:+ file.

(** The scanner script on a file system: [saveToFile] hands the relative
    name [OUTPUT_FILE] to [fs.writeFileSync], which resolves it against the
    working directory. *)
Definition runScanner (localeCompare : string -> string -> Z)
    (env : Startup.Environment) (args : list string) (c : Scanner.Console)
    (cwd : string) (fs : gmap string (list ModuleRecord))
  : Startup.ScriptEnd Scanner.ScanRun * gmap string (list ModuleRecord) :=
  let path := resolve cwd OUTPUT_FILE in
  match Startup.scanner localeCompare env args c (fs !! path) with
  | Startup.Completed run =>
      (Startup.Completed run,
       match Scanner.snapshotFile run with
       | Some modules => <[path := modules]> fs
       | None => fs
       end)
  | ending => (ending, fs)
  end.

(** The publisher script on a file system: [processURLs] reads
    [path.resolve(__dirname, OUTPUT_FILE)], next to the script. *)
Definition runPublisher (env : Startup.Environment) (args : list string)
    (dirname : string) (fs : gmap string (list ModuleRecord))
    (b : Publisher.Browser) (schedule : list (string * nat))
  : Startup.ScriptEnd Publisher.Pool :=
  Startup.publisher env args (fs !! resolve dirname OUTPUT_FILE) b schedule.

End Files.

(** ** The scheduler: [run-scheduled.js] *)
Module Scheduled.

(** What [exec] hands to its callback when the child has ended. *)
Record ChildResult : Type := mkChildResult {
  childError : option string;      (* error.message, [None] for null *)
  childStdout : string;
  childStderr : string
}.

Inductive SchedEvent : Type :=
| SchedStarting (name : string)
| SchedError (name message : string)
| SchedOutput (name stdout : string)
| SchedStderr (name stderr : string)
| SchedFinished (name : string).

#[global] Instance SchedEvent_eq_dec : EqDecision SchedEvent.
Proof. solve_decision. Defined.

(** [runScript(scriptPath, name, callback)]: [callback] is what the
    continuation prints, [None] when no callback is passed. *)
Definition runScript (name : string) (child : ChildResult)
    (callback : option (list SchedEvent)) : list SchedEvent :=
  [SchedStarting name]
  ++ match childError child with
     | Some message => [SchedError name message]
     | None => []
     end
  ++ (if Js.falsy (Some (childStdout child)) then []
      else [SchedOutput name (childStdout child)])
  ++ (if Js.falsy (Some (childStderr child)) then []
      else [SchedStderr name (childStderr child)])
  ++ [SchedFinished name]
  ++ default [] callback.

(** One run of the pair, at start-up and at every tick of the schedule. *)
Definition runBoth (scannerChild republisherChild : ChildResult) : list SchedEvent :=
  runScript "Warning Scanner" scannerChild
    (Some (runScript "Module Republisher" republisherChild None)).

(** The two children of one run on the file system: both are started with
    no argument, inherit the working directory of the scheduler and lie in
    its directory. *)
Definition cycle (localeCompare : string -> string -> Z) (env : Startup.Environment)
    (c : Scanner.Console) (b : Publisher.Browser) (schedule : list (string * nat))
    (cwd dirname : string) (fs : gmap string (list ModuleRecord))
  : Startup.ScriptEnd Scanner.ScanRun * Startup.ScriptEnd Publisher.Pool
    * gmap string (list ModuleRecord) :=
  let '(scanned, fs1) := Files.runScanner localeCompare env [] c cwd fs in
  (scanned, Files.runPublisher env [] dirname fs1 b schedule, fs1).

End Scheduled.

(** ** Further sample data *)
Module Scenario.

Definition complete_environment : Startup.Environment :=
  Startup.mkEnvironment (Some "operator") (Some "secret") (Some "dev").

(** A console whose listing is empty and stays empty at the second look. *)
Definition empty_console : Scanner.Console :=
  Scanner.mkConsole true true true Scanner.NoModulesToShow (Some []) (fun _ => true).

(** How often a tab has a turn in a schedule. *)
Definition turnsOf (w : string * nat) (schedule : list (string * nat)) : nat :=
  length (List.filter (fun v => bool_decide (v = w)) schedule).

(** A browser on which the login of one group fails. *)
Definition lockedOut (subdomain : string) : Publisher.Browser :=
  {| Publisher.loginOk := fun s => negb (String.eqb s subdomain);
     Publisher.gotoOk := fun _ => true;
     Publisher.statusProbe := fun _ => Publisher.IconFound;
     Publisher.publishAttempt := fun _ _ => Publisher.AttemptThrows |}.

(** An action that succeeds at its second attempt. *)
Definition second_time_lucky (k : nat) : bool := (1 <=? k)%nat.

Definition old_snapshot : list ModuleRecord :=
  [mkModule "https://devsc.wodify.com/e?eSpaceId=40" "Old_BL" "BL"].

(** Two modules of one category whose names differ in case only. *)
Definition billing_upper : ModuleRecord :=
  mkModule "https://devsc.wodify.com/e?eSpaceId=51" "Billing_CS" "CS".

Definition billing_lower : ModuleRecord :=
  mkModule "https://devsc.wodify.com/e?eSpaceId=52" "billing_CS" "CS".

Definition case_pair : list ModuleRecord := [billing_upper; billing_lower].

Definition mixed_case_records : list ModuleRecord :=
  [ mkModule "https://devsc.wodify.com/e?eSpaceId=61" "Zeta_CS" "CS";
    mkModule "https://devsc.wodify.com/e?eSpaceId=60" "Legacy_Tools" "Tools";
    mkModule "https://devsc.wodify.com/e?eSpaceId=62" "Portal_UI" "UI";
    billing_upper;
    mkModule "https://devsc.wodify.com/e?eSpaceId=63" "alpha_CS" "CS";
    mkModule "https://devsc.wodify.com/e?eSpaceId=64" "Module2_BL" "BL";
    billing_lower;
    mkModule "https://devsc.wodify.com/e?eSpaceId=65" "Module10_BL" "BL";
    mkModule "https://devsc.wodify.com/e?eSpaceId=66" "Auth_IS" "IS";
    mkModule "https://devsc.wodify.com/e?eSpaceId=67" "Billing_CS" "CS" ].

(** The tie-break in the words of the specification: of two records with
    the same category rank, the earlier one has the name that is first in
    case-sensitive lexical order (the order of [<] on strings). *)
Definition tiesInLexicalOrder (sorted : list ModuleRecord) : Prop :=
  forall l1 a l2 b l3,
    sorted = l1 ++ a :: l2 ++ b :: l3 ->
    Scanner.categoryRank (suffix a) = Scanner.categoryRank (suffix b) ->
    (Sample.codeUnitCompare (name a) (name b) <= 0)%Z.

End Scenario.

(* ===================================================================== *)
(** * Part II: properties *)
(* ===================================================================== *)

(** ** Work queue *)
Section WorkQueue.
Import Publisher.

Lemma getNextTask_in_range (l : list string) (i : nat) (x : string) :
  l !! i = Some x ->
  getNextTask (mkQueue l i) = (Some x, mkQueue l (S i)).
Proof.
  intros Hx. unfold getNextTask; simpl.
  rewrite bool_decide_true by (eapply lookup_lt_Some; eauto).
  by rewrite Hx.
Qed.

Lemma getNextTask_exhausted (l : list string) (i : nat) :
  length l <= i ->
  getNextTask (mkQueue l i) = (None, mkQueue l i).
Proof.
  intros Hi. unfold getNextTask; simpl.
  by rewrite bool_decide_false by lia.
Qed.

(** The answers to any sequence of calls: the items from the cursor on,
    in order, then [null] for ever. *)
Lemma drawAll_answers (l : list string) (callers : list nat) (i : nat) :
  (drawAll callers (mkQueue l i)).*2 =
    (Some <$> take (length callers) (drop i l)) ++
    replicate (length callers - length (drop i l)) None.
Proof.
  revert i. induction callers as [|w callers IH]; intros i; [done|].
  cbn [drawAll].
  destruct (l !! i) as [x|] eqn:Hx.
  - rewrite (getNextTask_in_range _ _ _ Hx). cbn.
    rewrite IH. rewrite (drop_S _ _ _ Hx). cbn. done.
  - apply lookup_ge_None in Hx.
    rewrite (getNextTask_exhausted _ _ Hx). cbn.
    rewrite IH. rewrite !drop_ge by lia. cbn.
    rewrite take_nil, Nat.sub_0_r. done.
Qed.

Lemma omap_Some_None {A : Type} (l : list A) (n : nat) :
  omap id ((Some <$> l) ++ replicate n None) = l.
Proof.
  induction l as [|x l IH]; cbn.
  - induction n as [|n IHn]; cbn; [reflexivity | exact IHn].
  - by rewrite IH.
Qed.

Lemma claimed_drawAll (l : list string) (callers : list nat) :
  claimed (drawAll callers (mkQueue l 0)) = take (length callers) l.
Proof.
  unfold claimed.
  assert (Hsnd : forall d : list (nat * option string), omap snd d = omap id d.*2).
  { induction d as [|[w t] d IHd]; cbn; [done|]. rewrite IHd. done. }
  rewrite Hsnd, drawAll_answers, drop_0. apply omap_Some_None.
Qed.

End WorkQueue.

(** ** Facts about lists used throughout *)
Section ListFacts.

Lemma filter_sublist {A : Type} (f : A -> bool) (l : list A) :
  List.filter f l `sublist_of` l.
Proof.
  induction l as [|x l IH]; cbn; [constructor|].
  destruct (f x); by constructor.
Qed.

Lemma filter_elem_of {A : Type} (f : A -> bool) (l : list A) (x : A) :
  x ∈ List.filter f l <-> x ∈ l /\ f x = true.
Proof. rewrite !list_elem_of_In. apply filter_In. Qed.

Lemma filter_fmap {A B : Type} (g : A -> B) (f : B -> bool) (l : list A) :
  List.filter f (g <$> l) = g <$> List.filter (fun x => f (g x)) l.
Proof.
  induction l as [|x l IH]; cbn; [done|].
  destruct (f (g x)); cbn; by rewrite IH.
Qed.

Lemma occurrences_absent (x : string) (l : list string) :
  x ∉ l -> List.filter (String.eqb x) l = [].
Proof.
  induction l as [|y l IH]; cbn; [done|].
  intros Hx. apply not_elem_of_cons in Hx as [Hxy Hx].
  destruct (String.eqb_spec x y); [done|]. by apply IH.
Qed.

Lemma occurrences_NoDup (x : string) (l : list string) :
  NoDup l -> x ∈ l -> List.filter (String.eqb x) l = [x].
Proof.
  induction 1 as [|y l Hy Hl IH]; intros Hx.
  - by apply elem_of_nil in Hx.
  - cbn. destruct (String.eqb_spec x y) as [->|Hne].
    + by rewrite occurrences_absent.
    + apply IH. apply elem_of_cons in Hx as [?|?]; done.
Qed.

Lemma occurrences_NoDup_le (x : string) (l : list string) :
  NoDup l -> length (List.filter (String.eqb x) l) <= 1.
Proof.
  intros Hl. destruct (decide (x ∈ l)) as [Hx|Hx].
  - by rewrite occurrences_NoDup.
  - rewrite occurrences_absent by done. cbn. lia.
Qed.

Lemma NoDup_filter_fmap {A : Type} (g : A -> string) (f : A -> bool) (l : list A) :
  NoDup (g <$> l) -> NoDup (g <$> List.filter f l).
Proof.
  intros Hl.
  apply (sublist_NoDup (g <$> List.filter f l) (g <$> l)); [done|].
  apply fmap_sublist, filter_sublist.
Qed.

Lemma filter_none {A : Type} (f : A -> bool) (l : list A) :
  (forall x, x ∈ l -> f x = false) -> List.filter f l = [].
Proof.
  induction l as [|x l IH]; intros Hf; [done|].
  cbn. rewrite (Hf x) by left. apply IH. intros y Hy. apply Hf. by right.
Qed.

End ListFacts.

(** ** The work queue drained by any number of workers *)
Section WorkQueueClaims.
Import Publisher.

(** C4.  One work queue over a snapshot of [N] records with pairwise
    different urls, drawn from by [T >= 1] workers in any order: the
    successful claims are the snapshot's urls in input order, no url is
    claimed twice, once [N] calls were made every url has been claimed
    exactly once, and every call after the [N]-th answers "no more
    work". *)
Theorem work_queue_claims_each_record_once
    (snapshot : list ModuleRecord) (T : nat) (callers : list nat) :
  NoDup (url <$> snapshot) ->
  1 <= T ->
  Forall (fun w => w < T) callers ->
  let N := length snapshot in
  let draws := drawAll callers (mkQueue (url <$> snapshot) 0) in
  claimed draws = take (length callers) (url <$> snapshot)
  /\ NoDup (claimed draws)
  /\ (take N draws).*2 = Some <$> take (length callers) (url <$> snapshot)
  /\ Forall (fun d => d.2 = None) (drop N draws)
  /\ (N <= length callers ->
      claimed draws = url <$> snapshot
      /\ forall m, m ∈ snapshot ->
           List.filter (String.eqb (url m)) (claimed draws) = [url m]).
Proof.
  intros Hnodup _ _ N draws.
  assert (Hclaimed : claimed draws = take (length callers) (url <$> snapshot))
    by apply claimed_drawAll.
  assert (Hsnd : draws.*2 =
                 (Some <$> take (length callers) (url <$> snapshot)) ++
                 replicate (length callers - N) None).
  { unfold draws. rewrite drawAll_answers, drop_0.
    by rewrite length_fmap. }
  assert (Hlen : length (Some <$> take (length callers) (url <$> snapshot))
                 = length callers `min` N).
  { by rewrite length_fmap, length_take, length_fmap. }
  split; [done|]. split.
  { rewrite Hclaimed.
    apply (sublist_NoDup _ (url <$> snapshot)); [done | apply sublist_take]. }
  split.
  { rewrite fmap_take, Hsnd.
    rewrite take_app_ge by lia.
    replace (N - _) with (N - length callers `min` N) by (by rewrite Hlen).
    destruct (decide (N <= length callers)) as [Hle|Hgt].
    - replace (N - length callers `min` N) with 0 by lia.
      by rewrite take_0, app_nil_r.
    - replace (length callers - N) with 0 by lia. cbn.
      by rewrite take_nil, app_nil_r. }
  split.
  { apply (Forall_fmap snd (fun t => t = None)). rewrite fmap_drop, Hsnd.
    destruct (decide (N <= length callers)) as [Hle|Hgt].
    - rewrite drop_app_ge by lia.
      rewrite drop_replicate. by apply Forall_replicate.
    - rewrite drop_ge; [constructor|].
      rewrite length_app, length_replicate. lia. }
  intros Hle.
  assert (Hall : claimed draws = url <$> snapshot).
  { rewrite Hclaimed. apply take_ge. rewrite length_fmap. unfold N in Hle. lia. }
  split; [done|].
  intros m Hm. rewrite Hall.
  apply occurrences_NoDup; [done|]. by apply list_elem_of_fmap_2.
Qed.

Lemma work_queue_claims_each_record_once_witness :
  let draws := drawAll [1; 0; 0; 1] (mkQueue (url <$> Sample.two_records) 0) in
  claimed draws = take 4 (url <$> Sample.two_records)
  /\ NoDup (claimed draws)
  /\ (take 2 draws).*2 = Some <$> take 4 (url <$> Sample.two_records)
  /\ Forall (fun d => d.2 = None) (drop 2 draws)
  /\ (2 <= 4 ->
      claimed draws = url <$> Sample.two_records
      /\ forall m, m ∈ Sample.two_records ->
           List.filter (String.eqb (url m)) (claimed draws) = [url m]).
Proof.
  apply (work_queue_claims_each_record_once Sample.two_records 2 [1; 0; 0; 1]).
  - apply (bool_decide_unpack _). vm_compute. reflexivity.
  - lia.
  - repeat constructor.
Defined.

End WorkQueueClaims.

(** ** One queue for all groups *)
Section SharedQueue.
Import Publisher.

(** What every turn of every tab preserves: the queue holds the items, and
    the tasks taken so far are the items before the cursor, in order. *)
Lemma tabTurn_follows_queue (items : list string) (b : Browser)
    (subdomain : string) (tab : nat) (p : Pool) :
  "" ∉ items ->
  taskQueue (queue p) = items
  /\ taskIndex (queue p) <= length items
  /\ claimTask <$> claims p = take (taskIndex (queue p)) items ->
  let p1 := tabTurn b subdomain tab p in
  taskQueue (queue p1) = items
  /\ taskIndex (queue p1) <= length items
  /\ claimTask <$> claims p1 = take (taskIndex (queue p1)) items.
Proof.
  intros Hne (Hq & Hk & Hcl). unfold tabTurn.
  destruct (loginOk b subdomain); cbn; [|done].
  destruct (exited p !! (subdomain, tab)); [done|].
  destruct p as [[l k] ex cl vis lg]; cbn in *. subst l.
  destruct (items !! k) as [x|] eqn:Hx.
  - rewrite (getNextTask_in_range _ _ _ Hx).
    assert (Hfalsy : Js.falsy (Some x) = false).
    { cbn. apply String.eqb_neq. intros ->.
      apply Hne. by eapply list_elem_of_lookup_2. }
    rewrite Hfalsy.
    assert (Hk1 : S k <= length items)
      by (apply lookup_lt_Some in Hx; lia).
    assert (Hcl1 : claimTask <$> cl ++ [mkClaim subdomain tab x] = take (S k) items).
    { rewrite fmap_app, Hcl. cbn. by rewrite (take_S_r _ _ _ Hx). }
    cbn [default].
    repeat case_match; cbn; done.
  - apply lookup_ge_None in Hx.
    rewrite (getNextTask_exhausted _ _ Hx). cbn. done.
Qed.

Lemma runSchedule_follows_queue (ENV : string) (items : list string) (b : Browser)
    (schedule : list (string * nat)) (p : Pool) :
  "" ∉ items ->
  taskQueue (queue p) = items
  /\ taskIndex (queue p) <= length items
  /\ claimTask <$> claims p = take (taskIndex (queue p)) items ->
  let p1 := runSchedule ENV b schedule p in
  taskQueue (queue p1) = items
  /\ taskIndex (queue p1) <= length items
  /\ claimTask <$> claims p1 = take (taskIndex (queue p1)) items.
Proof.
  intros Hne. revert p.
  induction schedule as [|w schedule IH]; intros p Hp; [done|].
  cbn. apply IH. case_bool_decide; [|done].
  by apply tabTurn_follows_queue.
Qed.

Lemma timesClaimed_occurrences (item : string) (p : Pool) :
  timesClaimed item p =
  length (List.filter (String.eqb item) (claimTask <$> claims p)).
Proof.
  unfold timesClaimed. rewrite filter_fmap, length_fmap.
  f_equal. apply filter_ext. intros c. apply String.eqb_sym.
Qed.

Lemma claimedBy_elem_of (subdomain item : string) (p : Pool) :
  item ∈ claimedBy subdomain p <->
  exists c, c ∈ claims p /\ claimSubdomain c = subdomain /\ claimTask c = item.
Proof.
  unfold claimedBy. rewrite list_elem_of_fmap. split.
  - intros (c & -> & Hc). apply filter_elem_of in Hc as [Hc Hs].
    apply String.eqb_eq in Hs. eauto.
  - intros (c & Hc & Hs & Ht). exists c. split; [done|].
    apply filter_elem_of. split; [done|]. by apply String.eqb_eq.
Qed.

Lemma NoDup_fmap_same {A B : Type} (f : A -> B) (l : list A) (x y : A) :
  NoDup (f <$> l) -> x ∈ l -> y ∈ l -> f x = f y -> x = y.
Proof.
  induction l as [|z l IH]; cbn; intros Hl Hx Hy Hf.
  - by apply elem_of_nil in Hx.
  - apply NoDup_cons in Hl as [Hz Hl].
    apply elem_of_cons in Hx as [->|Hx]; apply elem_of_cons in Hy as [->|Hy].
    + done.
    + exfalso. apply Hz. rewrite Hf. by apply list_elem_of_fmap_2.
    + exfalso. apply Hz. rewrite <- Hf. by apply list_elem_of_fmap_2.
    + by apply IH.
Qed.

End SharedQueue.

Section GroupsShareOneQueue.
Import Publisher.

(** C1 (as the code has it).  All groups draw from the one global queue
    built from the (possibly filtered) snapshot: over all groups and tabs
    together an item is taken at most once, never by two groups, and
    exactly once as soon as the queue is drained. *)
Theorem groups_share_one_queue
    (ENV : string) (requestedLayers : option (list string))
    (snapshot : list ModuleRecord) (b : Browser) (schedule : list (string * nat)) :
  NoDup (url <$> snapshot) ->
  Forall (fun m => url m <> "") snapshot ->
  let items := url <$> (Cli.filterModulesByRequestedLayers snapshot requestedLayers).1 in
  let p := processURLs ENV requestedLayers (Some snapshot) b schedule in
  taskQueue (queue p) = items
  /\ claimTask <$> claims p = take (taskIndex (queue p)) items
  /\ (forall item, timesClaimed item p <= 1)
  /\ (forall g g' item, item ∈ claimedBy g p -> item ∈ claimedBy g' p -> g = g')
  /\ (taskIndex (queue p) = length items ->
      forall item, item ∈ items -> timesClaimed item p = 1).
Proof.
  intros Hnodup Hurls items p.
  assert (Hitems : NoDup items).
  { unfold items. destruct requestedLayers; cbn; [|done].
    by apply NoDup_filter_fmap. }
  assert (Hne : "" ∉ items).
  { unfold items. intros (m & Hm & Hin)%list_elem_of_fmap.
    assert (m ∈ snapshot).
    { destruct requestedLayers; cbn in Hin; [|done].
      by apply filter_elem_of in Hin as [? _]. }
    rewrite Forall_forall in Hurls. by eapply Hurls. }
  assert (Hinv : taskQueue (queue p) = items
                 /\ taskIndex (queue p) <= length items
                 /\ claimTask <$> claims p = take (taskIndex (queue p)) items).
  { unfold p, processURLs.
    destruct (Cli.filterModulesByRequestedLayers snapshot requestedLayers)
      as [filtered lg] eqn:Hf.
    apply runSchedule_follows_queue; [done|]. cbn.
    unfold items. cbn. repeat split; try done; lia. }
  destruct Hinv as (Hq & Hk & Hcl).
  assert (Htaken : NoDup (claimTask <$> claims p)).
  { rewrite Hcl. apply (sublist_NoDup _ items); [done | apply sublist_take]. }
  split; [done|]. split; [done|]. split.
  { intros item. rewrite timesClaimed_occurrences.
    by apply occurrences_NoDup_le. }
  split.
  { intros g g' item (c & Hc & Hg & Ht)%claimedBy_elem_of
      (c' & Hc' & Hg' & Ht')%claimedBy_elem_of.
    assert (c = c') by (eapply (NoDup_fmap_same claimTask); eauto; congruence).
    congruence. }
  intros Hdrained item Hitem.
  rewrite timesClaimed_occurrences, Hcl, Hdrained, firstn_all.
  by rewrite occurrences_NoDup.
Qed.

Lemma groups_share_one_queue_witness :
  let items := url <$> (Cli.filterModulesByRequestedLayers Sample.two_records None).1 in
  let p := processURLs "dev" None (Some Sample.two_records) calmBrowser (roundRobin "dev" 2) in
  taskQueue (queue p) = items
  /\ claimTask <$> claims p = take (taskIndex (queue p)) items
  /\ (forall item, timesClaimed item p <= 1)
  /\ (forall g g' item, item ∈ claimedBy g p -> item ∈ claimedBy g' p -> g = g')
  /\ (taskIndex (queue p) = length items ->
      forall item, item ∈ items -> timesClaimed item p = 1).
Proof.
  apply (groups_share_one_queue "dev" None Sample.two_records calmBrowser
           (roundRobin "dev" 2)).
  - apply (bool_decide_unpack _). vm_compute. reflexivity.
  - repeat constructor; discriminate.
Defined.

(** C1 as stated fails: with a snapshot of one record, after every tab of
    every group has left its loop, only the first group has taken the
    item; the other four never see it. *)
Lemma per_group_dispatch_fails :
  let p := processURLs "dev" None (Some Sample.one_record) calmBrowser (roundRobin "dev" 2) in
  allTabsExited "dev" p
  /\ claimedBy "dev" p = [url Sample.billing_cs]
  /\ claimedBy "dev-coreap" p = []
  /\ ~ eachGroupTakesEachItemOnce "dev" (url <$> Sample.one_record) p.
Proof.
  split; [apply (bool_decide_unpack _); vm_compute; reflexivity|].
  split; [vm_compute; reflexivity|].
  split; [vm_compute; reflexivity|].
  apply (bool_decide_unpack _). vm_compute. reflexivity.
Qed.

End GroupsShareOneQueue.

(** ** Retry loops *)
Section RetryPolicy.
Import Publisher.

(** Both loops end within their budget, whatever the page does. *)
Lemma navigateWithRetries_total (goto : nat -> bool) (url : string) :
  exists r : bool,
    (navigateWithRetries goto url).1 = Some (Some r)
    /\ 1 <= attemptsMade (navigateWithRetries goto url).2 <= RETRY_LIMIT.
Proof.
  unfold navigateWithRetries, RETRY_LIMIT. cbn.
  destruct (goto 0); [exists true; cbn; split; [done | lia]|].
  destruct (goto 1); [exists true; cbn; split; [done | lia]|].
  destruct (goto 2); [exists true | exists false]; cbn; (split; [done | lia]).
Qed.

Lemma processPublishPage_total (attempt : nat -> Attempt) (url : string) :
  exists e : PublishExit,
    (processPublishPage attempt url).1 = Some e
    /\ e <> LoopEnded
    /\ 1 <= attemptsMade (processPublishPage attempt url).2 <= RETRY_LIMIT.
Proof.
  unfold processPublishPage, RETRY_LIMIT. cbn.
  destruct (attempt 0); cbn;
    [| eexists; split; [done | split; [done | lia]] ..].
  destruct (attempt 1); cbn;
    [| eexists; split; [done | split; [done | lia]] ..].
  destruct (attempt 2); cbn; eexists; (split; [done | split; [done | lia]]).
Qed.

(** C6.  With [RETRY_LIMIT = 3]: an action failing on attempts 1 and 2
    and succeeding on attempt 3 makes the wrapper return the success after
    exactly the attempts 1, 2, 3; an action failing on attempt 3 as well
    ends in the terminal failure after exactly the attempts 1, 2, 3.
    Nothing is asked of the action beyond its third attempt. *)
Theorem retry_policy_three_attempts
    (url : string) (goto : nat -> bool) (attempt : nat -> Attempt) :
  goto 0 = false -> goto 1 = false ->
  attempt 0 = AttemptThrows -> attempt 1 = AttemptThrows ->
  (goto 2 = true ->
     navigateWithRetries goto url =
     (Some (Some true),
      [LogNavigating url 1; ErrNavigating url;
       LogNavigating url 2; ErrNavigating url;
       LogNavigating url 3; LogLoaded url]))
  /\ (goto 2 = false ->
     navigateWithRetries goto url =
     (Some (Some false),
      [LogNavigating url 1; ErrNavigating url;
       LogNavigating url 2; ErrNavigating url;
       LogNavigating url 3; ErrNavigating url; ErrFailedToLoad url]))
  /\ (attempt 2 = AttemptPublishes ->
     processPublishPage attempt url =
     (Some PublishStarted,
      [LogThreadNavigating url 1; ErrRetrying url 1;
       LogThreadNavigating url 2; ErrRetrying url 2;
       LogThreadNavigating url 3; LogThreadLoaded url; LogPublishStarted]))
  /\ (attempt 2 = AttemptFindsNothing ->
     processPublishPage attempt url =
     (Some NothingToPublish,
      [LogThreadNavigating url 1; ErrRetrying url 1;
       LogThreadNavigating url 2; ErrRetrying url 2;
       LogThreadNavigating url 3; LogThreadLoaded url; LogNothingToPublish]))
  /\ (attempt 2 = AttemptThrows ->
     processPublishPage attempt url =
     (Some MaxRetriesReached,
      [LogThreadNavigating url 1; ErrRetrying url 1;
       LogThreadNavigating url 2; ErrRetrying url 2;
       LogThreadNavigating url 3; ErrRetrying url 3; ErrMaxRetries url]))
  /\ attemptsMade (navigateWithRetries goto url).2 = 3
  /\ attemptsMade (processPublishPage attempt url).2 = 3.
Proof.
  intros G0 G1 A0 A1.
  unfold navigateWithRetries, processPublishPage. cbn.
  rewrite G0, G1, A0, A1. cbn.
  repeat split; try (intros ->; reflexivity).
  - by destruct (goto 2).
  - by destruct (attempt 2).
Qed.

Lemma retry_policy_three_attempts_witness :
  navigateWithRetries Sample.third_time_lucky "https://dev.wodify.com/ServiceCenter/" =
    (Some (Some true),
     [LogNavigating "https://dev.wodify.com/ServiceCenter/" 1;
      ErrNavigating "https://dev.wodify.com/ServiceCenter/";
      LogNavigating "https://dev.wodify.com/ServiceCenter/" 2;
      ErrNavigating "https://dev.wodify.com/ServiceCenter/";
      LogNavigating "https://dev.wodify.com/ServiceCenter/" 3;
      LogLoaded "https://dev.wodify.com/ServiceCenter/"])
  /\ attemptsMade
       (processPublishPage Sample.publishes_at_third
          "https://dev.wodify.com/ServiceCenter/").2 = 3.
Proof.
  destruct (retry_policy_three_attempts "https://dev.wodify.com/ServiceCenter/"
              Sample.third_time_lucky Sample.publishes_at_third
              eq_refl eq_refl eq_refl eq_refl)
    as (Hnav & _ & _ & _ & _ & _ & Hcount).
  split; [exact (Hnav eq_refl) | exact Hcount].
Defined.

End RetryPolicy.

(** ** Facts about the string primitives *)
Section StringFacts.

Lemma append_String (c : ascii) (s t : string) :
  String c s +:+ t = String c (s +:+ t).
Proof. reflexivity. Qed.

Lemma append_empty (t : string) : "" +:+ t = t.
Proof. reflexivity. Qed.

Lemma startsWith_app (p a b : string) :
  Js.startsWith (p +:+ a) (p +:+ b) = Js.startsWith a b.
Proof.
  induction p as [|c p IH]; rewrite ?append_String, ?append_empty;
    cbn [Js.startsWith]; [done|].
  by rewrite Ascii.eqb_refl, IH.
Qed.

Lemma dropPrefix_app (p s : string) :
  Publisher.dropPrefix p (p +:+ s) = Some s.
Proof.
  induction p as [|c p IH]; rewrite ?append_String, ?append_empty;
    cbn [Publisher.dropPrefix]; [by destruct s|].
  by rewrite Ascii.eqb_refl.
Qed.

Lemma dropPrefix_startsWith (p s : string) :
  Js.startsWith p s = false -> Publisher.dropPrefix p s = None.
Proof.
  revert s.
  induction p as [|c p IH]; intros [|d s];
    cbn [Js.startsWith Publisher.dropPrefix]; try done.
  destruct (Ascii.eqb c d); cbn [andb]; [apply IH | done].
Qed.

Lemma includes_dot_cons (c : ascii) (s : string) :
  Js.includes (String c s) "." = false ->
  Ascii.eqb c "." = false /\ Js.includes s "." = false.
Proof.
  cbn [Js.includes Js.startsWith].
  rewrite andb_true_r, Ascii.eqb_sym.
  by intros [? ?]%orb_false_elim.
Qed.

Lemma spanNotDot_label (label rest : string) :
  Js.includes label "." = false ->
  Publisher.spanNotDot (label +:+ "." +:+ rest) = (label, "." +:+ rest).
Proof.
  induction label as [|c label IH]; intros Hfree; [done|].
  apply includes_dot_cons in Hfree as [Hc Hfree].
  rewrite append_String. cbn [Publisher.spanNotDot].
  rewrite Hc. by rewrite (IH Hfree).
Qed.

End StringFacts.

(** ** The address a tab visits *)
Section AddressRewrite.
Import Publisher.

Lemma tabTurn_visits_rewritten (b : Browser) (subdomain : string) (tab : nat) (p : Pool) :
  visited p = (fun c => replaceHost (claimSubdomain c) (claimTask c)) <$> claims p ->
  let p1 := tabTurn b subdomain tab p in
  visited p1 = (fun c => replaceHost (claimSubdomain c) (claimTask c)) <$> claims p1.
Proof.
  intros Hp. unfold tabTurn.
  repeat case_match; cbn; rewrite ?fmap_app, ?Hp; done.
Qed.

Lemma runSchedule_visits_rewritten (ENV : string) (b : Browser)
    (schedule : list (string * nat)) (p : Pool) :
  visited p = (fun c => replaceHost (claimSubdomain c) (claimTask c)) <$> claims p ->
  let p1 := runSchedule ENV b schedule p in
  visited p1 = (fun c => replaceHost (claimSubdomain c) (claimTask c)) <$> claims p1.
Proof.
  revert p. induction schedule as [|w schedule IH]; intros p Hp; [done|].
  cbn. apply IH. case_bool_decide; [|done].
  by apply tabTurn_visits_rewritten.
Qed.

(** C10 (as the code has it).  Before it navigates, a tab replaces the
    leading [https://] and the first host label of the claimed url by
    [https://] and its own subdomain, and leaves a url that does not
    start with [https://] as it is.  The page visited is on the group's
    console when the stored url continues, after its first label, with the
    base domain of the consoles. *)
Theorem claimed_url_gets_the_group_label (subdomain label rest : string) :
  Js.includes subdomain "$" = false ->
  label <> "" ->
  Js.includes label "." = false ->
  replaceHost subdomain ("https://" +:+ label +:+ "." +:+ rest)
    = "https://" +:+ subdomain +:+ "." +:+ rest
  /\ (Js.startsWith (BASE_DOMAIN +:+ "/") rest = true ->
      onGroupEndpoint subdomain
        (replaceHost subdomain ("https://" +:+ label +:+ "." +:+ rest)) = true)
  /\ (forall task, Js.startsWith "https://" task = false ->
                   replaceHost subdomain task = task)
  /\ (forall ENV requestedLayers snapshot b schedule,
        let p := processURLs ENV requestedLayers (Some snapshot) b schedule in
        visited p = (fun c => replaceHost (claimSubdomain c) (claimTask c)) <$> claims p).
Proof.
  intros _ Hlabel Hfree.
  assert (Hshape : replaceHost subdomain ("https://" +:+ label +:+ "." +:+ rest)
                   = "https://" +:+ subdomain +:+ "." +:+ rest).
  { unfold replaceHost.
    rewrite (dropPrefix_app "https://" (label +:+ "." +:+ rest)).
    rewrite (spanNotDot_label label rest Hfree).
    by destruct label. }
  split; [done|]. split.
  { intros Hrest. rewrite Hshape. unfold onGroupEndpoint, groupOrigin.
    rewrite (startsWith_app "https://").
    rewrite (startsWith_app subdomain).
    by rewrite (startsWith_app "."). }
  split.
  { intros task Htask. unfold replaceHost.
    by rewrite (dropPrefix_startsWith _ _ Htask). }
  intros ENV requestedLayers snapshot b schedule p. unfold p, processURLs.
  destruct (Cli.filterModulesByRequestedLayers snapshot requestedLayers).
  by apply runSchedule_visits_rewritten.
Qed.

Lemma claimed_url_gets_the_group_label_witness :
  replaceHost "dev-coreap"
    ("https://" +:+ "devsc" +:+ "." +:+ "wodify.com/ServiceCenter/eSpace_Edit.aspx?eSpaceId=7")
    = "https://dev-coreap.wodify.com/ServiceCenter/eSpace_Edit.aspx?eSpaceId=7".
Proof.
  refine (proj1 (claimed_url_gets_the_group_label "dev-coreap" "devsc"
                   "wodify.com/ServiceCenter/eSpace_Edit.aspx?eSpaceId=7" _ _ _)).
  - reflexivity.
  - discriminate.
  - reflexivity.
Defined.

(** C10 as stated fails: the rest of the stored host is kept, so a record
    on another base domain is visited on that domain, and a record with an
    [http] address is visited where it is stored. *)
Lemma visited_page_off_the_group_console :
  let p := processURLs "dev" None (Some [Sample.foreign_record; Sample.plain_http_record])
             calmBrowser [("dev-coreap", 0); ("dev-coreap", 0)] in
  claimedBy "dev-coreap" p = [url Sample.foreign_record; url Sample.plain_http_record]
  /\ visited p =
       ["https://dev-coreap.example.org/ServiceCenter/eSpace_Edit.aspx?eSpaceId=7";
        "http://devsc.wodify.com/ServiceCenter/eSpace_Edit.aspx?eSpaceId=7"]
  /\ Forall (fun address => onGroupEndpoint "dev-coreap" address = false) (visited p).
Proof.
  split; [vm_compute; reflexivity|].
  split; [vm_compute; reflexivity|].
  apply (bool_decide_unpack _). vm_compute. reflexivity.
Qed.

End AddressRewrite.

(** ** What a failure does to a tab *)
Section TabFailures.
Import Publisher.

(** Once the first page of an item has loaded, nothing that happens in
    the status check or in the publish procedure ends the tab: its loop
    goes on to the next claim. *)
Lemma tabTurn_survives_after_load
    (b : Browser) (subdomain : string) (tab : nat) (p : Pool) (task : string) (q : Queue) :
  exited p !! (subdomain, tab) = None ->
  getNextTask (queue p) = (Some task, q) ->
  task <> "" ->
  gotoOk b (replaceHost subdomain task) = true ->
  exited (tabTurn b subdomain tab p) = exited p.
Proof.
  intros Hrun Hnext Htask Hgoto. unfold tabTurn.
  destruct (loginOk b subdomain); cbn [negb]; [|done].
  rewrite Hrun, Hnext.
  replace (Js.falsy (Some task)) with false
    by (symmetry; by apply String.eqb_neq).
  cbn [default]. unfold id. rewrite Hgoto.
  by repeat case_match.
Qed.

(** The first [page.goto] of an item is awaited outside any retry loop:
    when it rejects, the [catch] around the [while] ends the tab, and no
    attempt is counted. *)
Lemma tabTurn_crashes_on_first_load
    (b : Browser) (subdomain : string) (tab : nat) (p : Pool) (task : string) (q : Queue) :
  loginOk b subdomain = true ->
  exited p !! (subdomain, tab) = None ->
  getNextTask (queue p) = (Some task, q) ->
  task <> "" ->
  gotoOk b (replaceHost subdomain task) = false ->
  let p1 := tabTurn b subdomain tab p in
  exited p1 !! (subdomain, tab) = Some Crashed
  /\ attemptsMade (pubLog p1) = attemptsMade (pubLog p).
Proof.
  intros Hlogin Hrun Hnext Htask Hgoto. unfold tabTurn.
  rewrite Hlogin, Hrun, Hnext. cbn [negb].
  replace (Js.falsy (Some task)) with false
    by (symmetry; by apply String.eqb_neq).
  cbn [default]. unfold id. rewrite Hgoto. cbn [exited pubLog]. split.
  - apply lookup_insert_eq.
  - unfold attemptsMade. rewrite !List.filter_app, !length_app. cbn. lia.
Qed.

(** C3 at two inputs.  (1) The console times out on the page of the first
    of two modules: the tab that claimed it ends there, without a single
    retry, while its sibling goes on.  (2) Every console times out and the
    snapshot has eleven modules: each of the ten tabs ends on its first
    item, and the eleventh module is never taken by anyone. *)
Theorem navigation_timeout_ends_the_tab :
  (let p := processURLs "dev" None (Some Sample.two_records)
              (flakyBrowser "eSpaceId=7") (roundRobin "dev" 3) in
   claims p = [mkClaim "dev" 0 (url Sample.billing_cs);
               mkClaim "dev" 1 (url Sample.billing_ui)]
   /\ exited p !! ("dev", 0) = Some Crashed
   /\ exited p !! ("dev", 1) = Some QueueEmpty
   /\ attemptsMade (pubLog p) = 0)
  /\
  (let p := processURLs "dev" None (Some Sample.eleven_records)
              stalledBrowser (roundRobin "dev" 3) in
   Forall (fun w => exited p !! w = Some Crashed) (tabs "dev")
   /\ length (claims p) = 10
   /\ timesClaimed (url (Sample.numbered "21")) p = 0
   /\ attemptsMade (pubLog p) = 0).
Proof.
  split.
  - repeat split; vm_compute; reflexivity.
  - split; [apply (bool_decide_unpack _); vm_compute; reflexivity|].
    repeat split; vm_compute; reflexivity.
Qed.

End TabFailures.

(** ** The category argument *)
Section CategoryFilter.
Import Cli.

Lemma layerMap_unfold :
  layerMap = list_to_map ((fun layer => (layer, layer)) <$> PROCESSING_HIERARCHY).
Proof. vm_compute. reflexivity. Qed.

Lemma layerMap_lookup (key : string) :
  layerMap !! key =
  if bool_decide (key ∈ PROCESSING_HIERARCHY) then Some key else None.
Proof.
  rewrite layerMap_unfold. case_bool_decide as Hkey.
  - apply elem_of_list_to_map_1.
    + apply (bool_decide_unpack _). vm_compute. reflexivity.
    + apply list_elem_of_fmap. by exists key.
  - apply not_elem_of_list_to_map_1.
    rewrite <- list_fmap_compose.
    intros (layer & -> & Hl)%list_elem_of_fmap. by apply Hkey.
Qed.

Lemma find_fixpoints (f : string -> string) (key : string) (l : list string) :
  Forall (fun y => f y = y) l ->
  List.find (fun y => String.eqb (f y) key) l =
  if bool_decide (key ∈ l) then Some key else None.
Proof.
  induction 1 as [|y l Hy Hl IH]; [done|].
  cbn [List.find]. rewrite Hy.
  destruct (String.eqb_spec y key) as [->|Hne].
  - by rewrite bool_decide_true by left.
  - rewrite IH. apply option_eq; intros v.
    repeat case_bool_decide; try done; exfalso.
    + match goal with H : key ∉ _ |- _ => apply H; by right end.
    + match goal with H : key ∈ y :: _ |- _ =>
        apply elem_of_cons in H as [?|?]; [by subst | done] end.
Qed.

Lemma hierarchy_is_upper_case :
  Forall (fun layer => Js.toUpperCase layer = layer) PROCESSING_HIERARCHY.
Proof. repeat constructor. Qed.

(** The lookup the script makes is the case-insensitive match. *)
Lemma matchLayer_layerMap (token : string) :
  matchLayer token = layerMap !! Js.toUpperCase token.
Proof.
  unfold matchLayer.
  rewrite (find_fixpoints _ _ _ hierarchy_is_upper_case).
  by rewrite layerMap_lookup.
Qed.

Lemma matchLayer_nonempty (token layer : string) :
  matchLayer token = Some layer -> layer <> "".
Proof.
  unfold matchLayer. intros Hfind.
  apply find_some in Hfind as [Hin _].
  intros ->. revert Hin. vm_compute. intuition discriminate.
Qed.

Lemma filter_then_default (g : string -> option string) (tokens : list string) :
  (forall t v, g t = Some v -> v <> "") ->
  (fun t => default "" (g t)) <$> List.filter (fun t => truthy (g t)) tokens
  = omap g tokens.
Proof.
  intros Hg. induction tokens as [|t tokens IH]; [done|].
  assert (Htr : truthy (g t) = bool_decide (is_Some (g t))).
  { destruct (g t) as [v|] eqn:Ht; [|done].
    unfold truthy, Js.falsy. apply Hg, String.eqb_neq in Ht. by rewrite Ht. }
  cbn [List.filter]. rewrite Htr.
  change (omap g (t :: tokens)) with
    (match g t with Some v => v :: omap g tokens | None => omap g tokens end).
  destruct (g t) as [v|] eqn:Ht.
  - rewrite bool_decide_true by eauto. rewrite fmap_cons, Ht, IH. done.
  - rewrite bool_decide_false by (by intros [? ?]). done.
Qed.

Lemma omap_pointwise (f g : string -> option string) (l : list string) :
  (forall x, f x = g x) -> omap f l = omap g l.
Proof.
  intros Hfg. induction l as [|x l IH]; [done|].
  cbn. by rewrite Hfg, IH.
Qed.

Lemma parseRequestedLayers_unfold (layersArg : string) (rest : list string) :
  parseRequestedLayers (layersArg :: rest) =
  match recognisedLayers layersArg with
  | [] => (None, [WarnNoValidLayers layersArg; LogAvailableLayers PROCESSING_HIERARCHY])
  | layer :: layers => (Some (layer :: layers), [LogWillProcessLayers (layer :: layers)])
  end.
Proof.
  unfold parseRequestedLayers, recognisedLayers.
  rewrite (filter_then_default (fun t => layerMap !! Js.toUpperCase t)).
  - rewrite (omap_pointwise _ matchLayer)
      by (intros; symmetry; apply matchLayer_layerMap).
    by destruct (omap matchLayer _).
  - intros t v. rewrite <- matchLayer_layerMap. apply matchLayer_nonempty.
Qed.

End CategoryFilter.

Section CategoryArgument.
Import Cli.

Lemma matchLayer_spec (token layer : string) :
  matchLayer token = Some layer <->
  layer ∈ PROCESSING_HIERARCHY /\ Js.toUpperCase token = Js.toUpperCase layer.
Proof.
  split.
  - intros Hfind. apply find_some in Hfind as [Hin Heq].
    apply String.eqb_eq in Heq. split; [by apply list_elem_of_In | done].
  - intros [Hin Heq]. unfold matchLayer.
    rewrite (find_fixpoints _ _ _ hierarchy_is_upper_case).
    assert (Hfix : Js.toUpperCase layer = layer).
    { pose proof hierarchy_is_upper_case as Hup.
      rewrite Forall_forall in Hup. by apply Hup. }
    rewrite Heq, Hfix. by rewrite bool_decide_true.
Qed.

Lemma omap_nil_iff (f : string -> option string) (l : list string) :
  omap f l = [] <-> Forall (fun x => f x = None) l.
Proof.
  induction l as [|x l IH]; [by split; [constructor|]|].
  cbn. destruct (f x) eqn:Hx.
  - split; [done|]. intros H. inversion H; congruence.
  - rewrite IH. split; [by constructor|]. intros H. by inversion H.
Qed.


Example category_argument_mixed_case :
  (parseRequestedLayers ["os, Ui ,xx"; "ignored"]).1 = Some ["OS"; "UI"]
  /\ (parseRequestedLayers ["xx,,core"]).1 = None.
Proof. split; vm_compute; reflexivity. Qed.


End CategoryArgument.

(** ** The scraper: accumulation and deduplication *)
Section Accumulation.
Import Scanner.

Lemma mapSet_absent (modules : list (string * ModuleRecord)) (key : string)
    (value : ModuleRecord) :
  key ∉ modules.*1 -> mapSet modules key value = modules ++ [(key, value)].
Proof.
  induction modules as [|[k v] modules IH]; [done|].
  cbn. intros [Hk Hrest]%not_elem_of_cons.
  destruct (String.eqb_spec k key); [congruence|].
  by rewrite IH.
Qed.

(** What a row does to the [Map]: nothing unless it is captured and its url
    is new, in which case the record is added after the others. *)
Lemma scrapeRow_captured (modules : list (string * ModuleRecord)) (row : Row) :
  (scrapeRow modules row).1 =
  match captured row with
  | Some r => if bool_decide (url r ∈ modules.*1) then modules
              else modules ++ [(url r, r)]
  | None => modules
  end.
Proof.
  unfold scrapeRow, captured.
  destruct (warningIcon row) as [[|]|]; [|done..].
  destruct (moduleLink row) as [link|]; [|done].
  destruct (moduleName row) as [nm|]; [|done].
  destruct (Js.includes (Js.toLowerCase nm) "sandbox"); [done|].
  cbn [url]. unfold mapHas.
  case_bool_decide as Hin; cbn [negb fst].
  - done.
  - rewrite (mapSet_absent _ _ _ Hin).
    by destruct (Js.arrayIncludes PROCESSING_HIERARCHY _).
Qed.

Lemma firstSeen_seen_ext (seen1 seen2 : list string) (records : list ModuleRecord) :
  (forall u, u ∈ seen1 <-> u ∈ seen2) ->
  firstSeen seen1 records = firstSeen seen2 records.
Proof.
  revert seen1 seen2. induction records as [|r records IH]; intros s1 s2 Hs; [done|].
  cbn. rewrite (bool_decide_ext _ _ (Hs (url r))).
  case_bool_decide; [by apply IH|].
  f_equal. apply IH. intros u. rewrite !elem_of_cons. by rewrite Hs.
Qed.

Lemma scrapeRows_firstSeen (modules : list (string * ModuleRecord)) (rows : list Row) :
  (scrapeRows modules rows).1 =
  modules ++ ((fun r => (url r, r)) <$> firstSeen modules.*1 (omap captured rows)).
Proof.
  revert modules. induction rows as [|row rows IH]; intros modules.
  - cbn. by rewrite app_nil_r.
  - cbn [scrapeRows].
    pose proof (scrapeRow_captured modules row) as Hrow.
    destruct (scrapeRow modules row) as [modules1 log1]. cbn [fst] in Hrow.
    specialize (IH modules1).
    destruct (scrapeRows modules1 rows) as [modules2 log2]. cbn [fst] in IH |- *.
    rewrite IH, Hrow.
    change (omap captured (row :: rows)) with
      (match captured row with
       | Some r => r :: omap captured rows
       | None => omap captured rows
       end).
    destruct (captured row) as [r|]; [|done].
    cbn [firstSeen]. case_bool_decide; [done|].
    rewrite <- app_assoc. cbn. do 3 f_equal.
    apply firstSeen_seen_ext. intros u.
    rewrite fmap_app. change ([(url r, r)].*1) with [url r].
    rewrite elem_of_app, !elem_of_cons, elem_of_nil.
    tauto.
Qed.

Lemma scrapeRows_app (modules : list (string * ModuleRecord)) (rows1 rows2 : list Row) :
  (scrapeRows modules (rows1 ++ rows2)).1 =
  (scrapeRows (scrapeRows modules rows1).1 rows2).1.
Proof.
  revert modules. induction rows1 as [|row rows1 IH]; intros modules; [done|].
  cbn [scrapeRows app].
  destruct (scrapeRow modules row) as [modules1 log1].
  specialize (IH modules1).
  destruct (scrapeRows modules1 (rows1 ++ rows2)) as [m2 l2].
  destruct (scrapeRows modules1 rows1) as [m3 l3]. cbn [fst] in *.
  done.
Qed.

(** Whatever way the loop ends, its [Map] is the one obtained from the rows
    it has read. *)
Lemma scrapeLoop_listed (modules : list (string * ModuleRecord)) (view : Listing) :
  (scrapeLoop modules view).1 =
  if loopThrows view then Throw (scrapeRows modules (listed view)).1
  else Break (scrapeRows modules (listed view)).1.
Proof.
  revert modules. induction view as [| |rows next|rows following IH]; intros modules.
  - done.
  - done.
  - cbn. destruct (scrapeRows modules rows) as [m1 l1]. by destruct next.
  - cbn [scrapeLoop listed loopThrows]. rewrite scrapeRows_app.
    destruct (scrapeRows modules rows) as [m1 l1]. cbn [fst].
    specialize (IH m1). by destruct (scrapeLoop m1 following) as [e l2].
Qed.

Lemma mapValues_keyed (records : list ModuleRecord) :
  mapValues ((fun r => (url r, r)) <$> records) = records.
Proof.
  unfold mapValues. rewrite <- list_fmap_compose.
  induction records as [|r records IH]; [done|]. cbn. by rewrite IH.
Qed.

(** The scraper refines first-seen deduplication of the captured rows. *)
Lemma scrapeModulesWithWarnings_firstSeen (view : Listing) (recheck : option (list Row)) :
  scrapedRecords (scrapeModulesWithWarnings view recheck).1 =
  firstSeen [] (omap captured (rowsRead view recheck)).
Proof.
  unfold scrapeModulesWithWarnings, rowsRead.
  pose proof (scrapeLoop_listed [] view) as Hloop.
  rewrite scrapeRows_firstSeen in Hloop. cbn [app fmap list_fmap] in Hloop.
  destruct (scrapeLoop [] view) as [e log1]. cbn [fst] in Hloop. subst e.
  destruct (loopThrows view).
  - cbn. by rewrite mapValues_keyed.
  - destruct (omap captured (listed view)) as [|r0 records] eqn:Hcaps.
    + cbn. destruct recheck as [rows|]; cbn.
      * pose proof (scrapeRows_firstSeen [] rows) as Hrows.
        destruct (scrapeRows [] rows) as [m1 l1]. cbn in Hrows |- *.
        rewrite Hrows, mapValues_keyed.
        by rewrite omap_app, Hcaps.
      * rewrite List.app_nil_r. rewrite Hcaps. done.
    + rewrite Hcaps. cbn [firstSeen].
      rewrite bool_decide_false by apply not_elem_of_nil.
      cbn. f_equal. apply mapValues_keyed.
Qed.

End Accumulation.

(** ** First-seen deduplication *)
Section FirstSeen.
Import Scanner.

Lemma firstSeen_elem_of (seen : list string) (records : list ModuleRecord)
    (r : ModuleRecord) :
  r ∈ firstSeen seen records -> r ∈ records /\ url r ∉ seen.
Proof.
  revert seen. induction records as [|x records IH]; intros seen; cbn.
  - by intros ?%elem_of_nil.
  - case_bool_decide as Hx.
    + intros [? ?]%IH. split; [by right | done].
    + intros [->|Hr]%elem_of_cons; [split; [by left | done]|].
      apply IH in Hr as [? Hseen]. split; [by right|].
      intros ?. apply Hseen. by right.
Qed.

Lemma firstSeen_NoDup (seen : list string) (records : list ModuleRecord) :
  NoDup (url <$> firstSeen seen records).
Proof.
  revert seen. induction records as [|x records IH]; intros seen; cbn.
  - constructor.
  - case_bool_decide as Hx; [apply IH|].
    cbn. apply NoDup_cons. split; [|apply IH].
    intros (r & Hurl & Hr)%list_elem_of_fmap.
    apply firstSeen_elem_of in Hr as [_ Hr]. apply Hr. rewrite <- Hurl. by left.
Qed.

Lemma firstSeen_already_seen (seen : list string) (records : list ModuleRecord)
    (u : string) :
  u ∈ seen ->
  List.filter (fun r => String.eqb (url r) u) (firstSeen seen records) = [].
Proof.
  revert seen. induction records as [|x records IH]; intros seen Hu; cbn; [done|].
  case_bool_decide as Hx; [by apply IH|].
  cbn. destruct (String.eqb_spec (url x) u) as [Heq|Hne]; [congruence|].
  apply IH. by right.
Qed.

Lemma firstSeen_keeps_first (seen : list string) (records : list ModuleRecord)
    (u : string) (first : ModuleRecord) :
  List.find (fun r => String.eqb (url r) u) records = Some first ->
  u ∉ seen ->
  List.filter (fun r => String.eqb (url r) u) (firstSeen seen records) = [first].
Proof.
  revert seen. induction records as [|x records IH]; intros seen; cbn; [done|].
  destruct (String.eqb_spec (url x) u) as [Heq|Hne].
  - intros [= ->] Hu. rewrite bool_decide_false by congruence.
    cbn. rewrite Heq, String.eqb_refl.
    f_equal. apply firstSeen_already_seen. by left.
  - intros Hfind Hu. case_bool_decide as Hx; [by apply IH|].
    cbn. destruct (String.eqb_spec (url x) u); [done|].
    apply IH; [done|]. intros [?|?]%elem_of_cons; congruence.
Qed.

Lemma captured_without_sandbox (row : Row) (r : ModuleRecord) :
  captured row = Some r ->
  Js.includes (Js.toLowerCase (name r)) "sandbox" = false.
Proof.
  unfold captured.
  destruct (warningIcon row) as [[|]|]; [|done..].
  destruct (moduleLink row) as [link|]; [|done].
  destruct (moduleName row) as [nm|]; [|done].
  destruct (Js.includes (Js.toLowerCase nm) "sandbox") eqn:Hs; [done|].
  by intros [= <-].
Qed.

End FirstSeen.

(** ** The snapshot sort *)
Section SnapshotSort.
Import Scanner.

Variable localeCompare : string -> string -> Z.

Lemma position_le (layers : list string) (s : string) :
  position layers s <= length layers.
Proof.
  induction layers as [|y layers IH]; cbn; [lia|].
  destruct (String.eqb y s); lia.
Qed.

Lemma position_recognised (layers : list string) (s : string) :
  s ∈ layers <-> position layers s < length layers.
Proof.
  induction layers as [|y layers IH]; cbn.
  - split; [by intros ?%elem_of_nil | lia].
  - destruct (String.eqb_spec y s) as [->|Hne].
    + split; [lia | by left].
    + rewrite elem_of_cons, IH. split; [intros [?|?]; [congruence | lia] | right; lia].
Qed.

Lemma indexOfFrom_position (i : Z) (layers : list string) (s : string) :
  Js.indexOfFrom i layers s =
  if bool_decide (s ∈ layers) then (i + Z.of_nat (position layers s))%Z else (-1)%Z.
Proof.
  revert i. induction layers as [|y layers IH]; intros i; cbn; [done|].
  destruct (String.eqb_spec y s) as [->|Hne].
  - rewrite bool_decide_true by left. lia.
  - rewrite IH. repeat case_bool_decide; try lia; exfalso.
    + match goal with H : s ∉ _ :: _ |- _ => apply H; by right end.
    + match goal with H : s ∈ _ :: _ |- _ =>
        apply elem_of_cons in H as [?|?]; [congruence | done] end.
Qed.

(** The rank the comparator computes is the category rank, with [Infinity]
    for an unrecognised category. *)
Lemma rankOf_spec (s : string) :
  rankOf s =
  if bool_decide (s ∈ PROCESSING_HIERARCHY)
  then Js.Num (Z.of_nat (categoryRank s)) else Js.Infinity.
Proof.
  unfold rankOf, Js.indexOf, categoryRank. rewrite indexOfFrom_position.
  case_bool_decide; [|done].
  replace (0 + _ =? -1)%Z with false by (symmetry; apply Z.eqb_neq; lia).
  cbn [negb]. f_equal.
Qed.

Lemma categoryRank_unrecognised (s : string) :
  s ∉ PROCESSING_HIERARCHY -> categoryRank s = length PROCESSING_HIERARCHY.
Proof.
  intros Hs. unfold categoryRank.
  pose proof (position_le PROCESSING_HIERARCHY s).
  pose proof (position_recognised PROCESSING_HIERARCHY s) as Hrec.
  destruct (decide (position PROCESSING_HIERARCHY s < length PROCESSING_HIERARCHY));
    [by apply Hrec in l | lia].
Qed.

(** The comparator never reaches the assignments to its constants, and it
    is positive exactly when its arguments are out of snapshot order. *)
Lemma compareModules_spec (a b : ModuleRecord) :
  exists v, compareModules localeCompare a b = Some v
            /\ (Js.positive v = true <-> ~ inSnapshotOrder localeCompare a b).
Proof.
  unfold compareModules, inSnapshotOrder. rewrite !rankOf_spec.
  pose proof (position_recognised PROCESSING_HIERARCHY (suffix a)) as Ha.
  pose proof (position_recognised PROCESSING_HIERARCHY (suffix b)) as Hb.
  pose proof (categoryRank_unrecognised (suffix a)) as Ha'.
  pose proof (categoryRank_unrecognised (suffix b)) as Hb'.
  fold (categoryRank (suffix a)) in Ha. fold (categoryRank (suffix b)) in Hb.
  assert (HUI : "UI" ∈ PROCESSING_HIERARCHY)
    by (apply (bool_decide_unpack _); vm_compute; reflexivity).
  assert (Hguard : forall s, s ∉ PROCESSING_HIERARCHY -> String.eqb s "UI" = false).
  { intros s Hs. apply String.eqb_neq. by intros ->. }
  case_bool_decide as Hina; case_bool_decide as Hinb; cbn [Js.number_eqb andb];
    rewrite ?(Hguard _ Hina), ?(Hguard _ Hinb); cbn [andb].
  - apply Ha in Hina. apply Hb in Hinb.
    destruct (Z.eqb_spec (Z.of_nat (categoryRank (suffix a)))
                (Z.of_nat (categoryRank (suffix b)))) as [Heq|Hne].
    + eexists; split; [done|]. cbn [Js.positive Js.sub]. rewrite Z.ltb_lt. lia.
    + eexists; split; [done|]. cbn [Js.positive Js.sub]. rewrite Z.ltb_lt. lia.
  - apply Ha in Hina. specialize (Hb' Hinb).
    eexists; split; [done|]. cbn [Js.positive Js.sub]. split; [done | lia].
  - apply Hb in Hinb. specialize (Ha' Hina).
    eexists; split; [done|]. cbn [Js.positive Js.sub]. split; [lia | done].
  - specialize (Ha' Hina). specialize (Hb' Hinb).
    eexists; split; [done|]. cbn [Js.positive Js.sub]. rewrite Z.ltb_lt. lia.
Qed.

Lemma insertSorted_split (x : ModuleRecord) (sorted : list ModuleRecord) :
  exists before after,
    sorted = before ++ after
    /\ insertSorted localeCompare x sorted = Some (before ++ x :: after)
    /\ Forall (fun y => ~ inSnapshotOrder localeCompare x y) before
    /\ (forall y, head after = Some y -> inSnapshotOrder localeCompare x y).
Proof.
  induction sorted as [|y sorted (before & after & Hs & Hi & Hb & Ha)].
  - exists [], []. repeat split; [constructor | done].
  - cbn [insertSorted].
    destruct (compareModules_spec x y) as (v & -> & Hv).
    destruct (Js.positive v) eqn:Hpos.
    + exists (y :: before), after. rewrite Hi, Hs. repeat split; [|done].
      constructor; [by apply Hv | done].
    + exists [], (y :: sorted). repeat split; [constructor|].
      intros y' [= <-].
      assert (Hnn : ~ ~ inSnapshotOrder localeCompare x y)
        by (intros Hn; by apply Hv in Hn).
      unfold inSnapshotOrder in *. lia.
Qed.

(** The sort always returns, with a rearrangement of its argument. *)
Lemma arraySort_Permutation (modules : list ModuleRecord) :
  exists sorted, arraySort localeCompare modules = Some sorted /\ modules ≡ₚ sorted.
Proof.
  induction modules as [|x modules (sorted & Hs & Hp)].
  - by exists [].
  - cbn [arraySort]. rewrite Hs.
    destruct (insertSorted_split x sorted) as (before & after & -> & -> & _).
    eexists; split; [done|].
    rewrite Hp. apply Permutation_middle.
Qed.

End SnapshotSort.

(** ** Sorting with a consistent collation *)
Section ConsistentCollation.
Import Scanner.

Variable localeCompare : string -> string -> Z.
Hypothesis localeCompare_antisym :
  forall a b, (localeCompare a b < 0 <-> 0 < localeCompare b a)%Z.
Hypothesis localeCompare_trans :
  forall a b c, (localeCompare a b <= 0 -> localeCompare b c <= 0 ->
                 localeCompare a c <= 0)%Z.

Lemma inSnapshotOrder_total (a b : ModuleRecord) : ~ inSnapshotOrder localeCompare a b -> inSnapshotOrder localeCompare b a.
Proof.
  unfold inSnapshotOrder.
  pose proof (localeCompare_antisym (name a) (name b)).
  pose proof (localeCompare_antisym (name b) (name a)). lia.
Qed.

Lemma inSnapshotOrder_trans (a b c : ModuleRecord) :
  inSnapshotOrder localeCompare a b -> inSnapshotOrder localeCompare b c -> inSnapshotOrder localeCompare a c.
Proof.
  unfold inSnapshotOrder.
  pose proof (localeCompare_trans (name a) (name b) (name c)). lia.
Qed.

Lemma tied_inSnapshotOrder (k x y : ModuleRecord) :
  tiedWith localeCompare k x = true -> tiedWith localeCompare k y = true ->
  inSnapshotOrder localeCompare x y.
Proof.
  unfold tiedWith, inSnapshotOrder.
  intros [Hx Hkx%Z.eqb_eq]%andb_prop [Hy Hky%Z.eqb_eq]%andb_prop.
  apply Nat.eqb_eq in Hx, Hy.
  pose proof (localeCompare_antisym (name x) (name k)).
  pose proof (localeCompare_antisym (name k) (name x)).
  pose proof (localeCompare_trans (name x) (name k) (name y)). lia.
Qed.

Lemma inSnapshotOrder_refl (a : ModuleRecord) : inSnapshotOrder localeCompare a a.
Proof.
  unfold inSnapshotOrder.
  pose proof (localeCompare_antisym (name a) (name a)). lia.
Qed.

Lemma inSnapshotOrder_both_ways (a b : ModuleRecord) :
  inSnapshotOrder localeCompare a b -> inSnapshotOrder localeCompare b a ->
  tiedWith localeCompare a b = true.
Proof.
  unfold inSnapshotOrder, tiedWith. intros Hab Hba.
  pose proof (localeCompare_antisym (name a) (name b)).
  pose proof (localeCompare_antisym (name b) (name a)).
  apply andb_true_intro. split; [apply Nat.eqb_eq | apply Z.eqb_eq]; lia.
Qed.

(** The array a stable sort returns is determined by the order alone: two
    sorted rearrangements that keep tied records in the same order are the
    same array.  So any algorithm the runtime uses for [sort] gives what
    [arraySort] gives. *)
Lemma stable_sorted_unique (l1 l2 : list ModuleRecord) :
  l1 ≡ₚ l2 ->
  StronglySorted (inSnapshotOrder localeCompare) l1 ->
  StronglySorted (inSnapshotOrder localeCompare) l2 ->
  (forall k, List.filter (tiedWith localeCompare k) l1 =
             List.filter (tiedWith localeCompare k) l2) ->
  l1 = l2.
Proof.
  revert l2. induction l1 as [|a1 t1 IH]; intros l2 Hperm Hs1 Hs2 Hties.
  - by apply Permutation_nil_l in Hperm.
  - destruct l2 as [|a2 t2]; [by apply Permutation_nil_r in Hperm|].
    apply StronglySorted_cons in Hs1 as [Ha1 Hs1].
    apply StronglySorted_cons in Hs2 as [Ha2 Hs2].
    rewrite Forall_forall in Ha1, Ha2.
    assert (H12 : inSnapshotOrder localeCompare a1 a2).
    { assert (Hin : a2 ∈ a1 :: t1) by (rewrite Hperm; by left).
      apply elem_of_cons in Hin as [->|Hin];
        [apply inSnapshotOrder_refl | by apply Ha1]. }
    assert (H21 : inSnapshotOrder localeCompare a2 a1).
    { assert (Hin : a1 ∈ a2 :: t2) by (rewrite <- Hperm; by left).
      apply elem_of_cons in Hin as [->|Hin];
        [apply inSnapshotOrder_refl | by apply Ha2]. }
    assert (Heq : a1 = a2).
    { pose proof (Hties a1) as Ht. cbn [List.filter] in Ht.
      rewrite (inSnapshotOrder_both_ways a1 a2 H12 H21) in Ht.
      rewrite (inSnapshotOrder_both_ways a1 a1) in Ht
        by apply inSnapshotOrder_refl.
      congruence. }
    subst a2. f_equal. apply IH; [by eapply Permutation_cons_inv | done..|].
    intros k. specialize (Hties k). cbn [List.filter] in Hties.
    destruct (tiedWith localeCompare k a1); congruence.
Qed.

Lemma insertSorted_sorted (x : ModuleRecord) (sorted : list ModuleRecord) :
  StronglySorted (inSnapshotOrder localeCompare) sorted ->
  exists r, insertSorted localeCompare x sorted = Some r
            /\ StronglySorted (inSnapshotOrder localeCompare) r
            /\ forall k, List.filter (tiedWith localeCompare k) r =
                         List.filter (tiedWith localeCompare k) (x :: sorted).
Proof.
  intros Hsorted.
  destruct (insertSorted_split localeCompare x sorted)
    as (before & after & -> & Hins & Hbefore & Hafter).
  exists (before ++ x :: after). split; [done|].
  apply StronglySorted_app in Hsorted as (Hcross & Hb & Ha).
  rewrite Forall_forall in Hbefore.
  assert (Hx : Forall (inSnapshotOrder localeCompare x) after).
  { destruct after as [|y after]; [constructor|].
    specialize (Hafter y eq_refl).
    apply StronglySorted_cons in Ha as [Hy _].
    constructor; [done|].
    eapply Forall_impl; [exact Hy|]. intros z Hz.
    by eapply inSnapshotOrder_trans. }
  split.
  - apply StronglySorted_app_2; [|done|by apply StronglySorted_cons].
    intros x1 x2 Hx1 [->|Hx2]%elem_of_cons.
    + by apply inSnapshotOrder_total, Hbefore.
    + by apply Hcross.
  - intros k. cbn [List.filter]. rewrite !List.filter_app. cbn [List.filter].
    destruct (tiedWith localeCompare k x) eqn:Hkx; [|done].
    assert (Hnone : List.filter (tiedWith localeCompare k) before = []).
    { apply filter_none. intros y Hy.
      destruct (tiedWith localeCompare k y) eqn:Hky; [exfalso | done].
      by eapply Hbefore, tied_inSnapshotOrder. }
    by rewrite Hnone.
Qed.

Lemma arraySort_sorted (modules : list ModuleRecord) :
  exists sorted, arraySort localeCompare modules = Some sorted
                 /\ StronglySorted (inSnapshotOrder localeCompare) sorted
                 /\ forall k, List.filter (tiedWith localeCompare k) sorted =
                              List.filter (tiedWith localeCompare k) modules.
Proof.
  induction modules as [|x modules (sorted & Hs & Hss & Hst)].
  - exists []. repeat split. constructor.
  - cbn [arraySort]. rewrite Hs.
    destruct (insertSorted_sorted x sorted Hss) as (r & Hr & Hrs & Hrt).
    exists r. repeat split; [done..|].
    intros k. rewrite Hrt. cbn [List.filter]. by rewrite Hst.
Qed.

End ConsistentCollation.

Section CodeUnitCollation.

Lemma codeUnitCompare_le (a b : string) :
  (Sample.codeUnitCompare a b <= 0)%Z <-> String.le a b.
Proof.
  unfold Sample.codeUnitCompare, String.le, String.leb.
  destruct (String.compare a b); cbn; split; (lia || done).
Qed.

Lemma codeUnitCompare_antisym (a b : string) :
  (Sample.codeUnitCompare a b < 0 <-> 0 < Sample.codeUnitCompare b a)%Z.
Proof.
  unfold Sample.codeUnitCompare. rewrite (String.compare_antisym a b).
  destruct (String.compare b a); cbn; lia.
Qed.

Lemma codeUnitCompare_trans (a b c : string) :
  (Sample.codeUnitCompare a b <= 0 -> Sample.codeUnitCompare b c <= 0 ->
   Sample.codeUnitCompare a c <= 0)%Z.
Proof.
  rewrite !codeUnitCompare_le. intros Hab Hbc. by etrans.
Qed.

End CodeUnitCollation.

(** ** The collation of [localeCompare] *)
Section LocaleCollation.

Lemma allAscii_complete (c : ascii) : c ∈ Js.allAscii.
Proof.
  unfold Js.allAscii. apply list_elem_of_fmap. exists (nat_of_ascii c).
  split; [by rewrite ascii_nat_embedding|].
  apply elem_of_seq. pose proof (nat_ascii_bounded c). lia.
Qed.

Lemma for_all_ascii (P : ascii -> bool) :
  forallb P Js.allAscii = true -> forall c, P c = true.
Proof.
  intros H c. rewrite forallb_forall in H. apply H.
  apply list_elem_of_In, allAscii_complete.
Qed.

Lemma primaryWeight_lowerChar (c : ascii) :
  Js.primaryWeight (Js.lowerChar c) = Js.primaryWeight c.
Proof.
  apply Ascii.eqb_eq.
  apply (for_all_ascii (fun c => Ascii.eqb (Js.primaryWeight (Js.lowerChar c))
                                   (Js.primaryWeight c))).
  vm_compute. reflexivity.
Qed.

Lemma lowerChar_of_upper (c : ascii) :
  Js.isUpper c = true ->
  Ascii.compare c (Js.lowerChar c) = Lt /\ Js.upperChar (Js.lowerChar c) = c.
Proof.
  intros Hc.
  pose proof (for_all_ascii
    (fun c => implb (Js.isUpper c)
                (match Ascii.compare c (Js.lowerChar c) with Lt => true | _ => false end
                 && Ascii.eqb (Js.upperChar (Js.lowerChar c)) c))) as Hall.
  cbv beta in Hall. specialize (Hall ltac:(vm_compute; reflexivity) c).
  rewrite Hc in Hall. cbn [implb] in Hall. apply andb_prop in Hall as [Hlt Hup].
  split; [by destruct (Ascii.compare c (Js.lowerChar c)) | by apply Ascii.eqb_eq].
Qed.

Lemma lowerChar_of_word (c : ascii) :
  Js.isWordChar c = true ->
  Js.lowerChar c = if Ascii.eqb (Js.primaryWeight c) "001" then "_"%char
                   else Js.primaryWeight c.
Proof.
  intros Hc.
  pose proof (for_all_ascii
    (fun c => implb (Js.isWordChar c)
                (Ascii.eqb (Js.lowerChar c)
                   (if Ascii.eqb (Js.primaryWeight c) "001" then "_"%char
                    else Js.primaryWeight c)))) as Hall.
  cbv beta in Hall. specialize (Hall ltac:(vm_compute; reflexivity) c).
  rewrite Hc in Hall. by apply Ascii.eqb_eq.
Qed.

Lemma lowerChar_not_upper (c : ascii) : Js.isUpper c = false -> Js.lowerChar c = c.
Proof. intros Hc. unfold Js.lowerChar. by rewrite Hc. Qed.

Lemma ascii_compare_refl (c : ascii) : Ascii.compare c c = Eq.
Proof. unfold Ascii.compare. apply N.compare_refl. Qed.

Lemma same_letter (c1 c2 : ascii) :
  Js.lowerChar c1 = Js.lowerChar c2 ->
  Js.isUpper c1 = Js.isUpper c2 ->
  c1 = c2.
Proof.
  intros Hl Hu. destruct (Js.isUpper c1) eqn:H1.
  - rewrite <- (proj2 (lowerChar_of_upper c1 H1)), Hl.
    by apply lowerChar_of_upper.
  - rewrite <- (lowerChar_not_upper c1 H1), Hl. by apply lowerChar_not_upper.
Qed.

Lemma word_weights_inj (c1 c2 : ascii) :
  Js.isWordChar c1 = true -> Js.isWordChar c2 = true ->
  Js.primaryWeight c1 = Js.primaryWeight c2 ->
  Js.lowerChar c1 = Js.lowerChar c2
  /\ (Js.caseWeight c1 = Js.caseWeight c2 -> c1 = c2).
Proof.
  intros H1 H2 Hp.
  assert (Hl : Js.lowerChar c1 = Js.lowerChar c2)
    by (by rewrite (lowerChar_of_word c1 H1), (lowerChar_of_word c2 H2), Hp).
  split; [done|]. intros Hw. apply same_letter; [done|].
  unfold Js.caseWeight in Hw. by destruct (Js.isUpper c1), (Js.isUpper c2).
Qed.

Lemma case_reverses_code_units (c1 c2 : ascii) :
  Js.lowerChar c1 = Js.lowerChar c2 ->
  Js.primaryWeight c1 = Js.primaryWeight c2
  /\ Ascii.compare (Js.caseWeight c1) (Js.caseWeight c2) = Ascii.compare c2 c1.
Proof.
  intros Hl. split.
  { by rewrite <- (primaryWeight_lowerChar c1), Hl, primaryWeight_lowerChar. }
  unfold Js.caseWeight.
  destruct (Js.isUpper c1) eqn:H1, (Js.isUpper c2) eqn:H2.
  - rewrite (same_letter c1 c2 Hl) by congruence. by rewrite !ascii_compare_refl.
  - rewrite <- (lowerChar_not_upper c2 H2), <- Hl.
    rewrite (Ascii.compare_antisym (Js.lowerChar c1) c1).
    by rewrite (proj1 (lowerChar_of_upper c1 H1)).
  - rewrite <- (lowerChar_not_upper c1 H1), Hl.
    by rewrite (proj1 (lowerChar_of_upper c2 H2)).
  - rewrite (same_letter c1 c2 Hl) by congruence. by rewrite !ascii_compare_refl.
Qed.

Lemma collationKey_lower (s : string) :
  Js.collationKey Js.primaryWeight (Js.toLowerCase s) = Js.collationKey Js.primaryWeight s.
Proof.
  induction s as [|c s IH]; [done|].
  cbn [Js.toLowerCase Js.collationKey]. by rewrite primaryWeight_lowerChar, IH.
Qed.

Lemma collationKey_word (a b : string) :
  Js.isWord a = true -> Js.isWord b = true ->
  Js.collationKey Js.primaryWeight a = Js.collationKey Js.primaryWeight b ->
  Js.toLowerCase a = Js.toLowerCase b
  /\ (Js.collationKey Js.caseWeight a = Js.collationKey Js.caseWeight b -> a = b).
Proof.
  revert b. induction a as [|c1 a IH]; intros [|c2 b]; try done.
  cbn [Js.isWord Js.collationKey Js.toLowerCase].
  intros [Hc1 Ha]%andb_prop [Hc2 Hb]%andb_prop [= Hp Hkey].
  destruct (word_weights_inj c1 c2 Hc1 Hc2 Hp) as [Hl Hc].
  destruct (IH b Ha Hb Hkey) as [Hlow Hcase].
  split; [by rewrite Hl, Hlow|].
  intros [= Hw Hrest]. by rewrite (Hc Hw), (Hcase Hrest).
Qed.

Lemma compare_refl (s : string) : String.compare s s = Eq.
Proof.
  induction s as [|c s IH]; [done|].
  cbn [String.compare]. unfold Ascii.compare. by rewrite N.compare_refl.
Qed.

Lemma compare_Eq (a b : string) : String.compare a b = Eq <-> a = b.
Proof. split; [apply String.compare_eq_iff | intros ->; apply compare_refl]. Qed.

Lemma collationKey_same_letters (a b : string) :
  Js.toLowerCase a = Js.toLowerCase b ->
  Js.collationKey Js.primaryWeight a = Js.collationKey Js.primaryWeight b
  /\ String.compare (Js.collationKey Js.caseWeight a) (Js.collationKey Js.caseWeight b)
     = String.compare b a.
Proof.
  revert b. induction a as [|c1 a IH]; intros [|c2 b]; try done.
  cbn [Js.toLowerCase Js.collationKey String.compare]. intros [= Hl Hlow].
  destruct (case_reverses_code_units c1 c2 Hl) as [Hp Hc].
  destruct (IH b Hlow) as [Hkey Hcase].
  split; [by rewrite Hp, Hkey|].
  rewrite Hc. by destruct (Ascii.compare c2 c1).
Qed.

(** The collation is a consistent comparator. *)
Lemma localeCompare_antisym (a b : string) :
  (Js.localeCompare a b < 0 <-> 0 < Js.localeCompare b a)%Z.
Proof.
  unfold Js.localeCompare.
  rewrite (String.compare_antisym (Js.collationKey Js.primaryWeight a)),
          (String.compare_antisym (Js.collationKey Js.caseWeight a)).
  destruct (String.compare (Js.collationKey Js.primaryWeight b) _),
           (String.compare (Js.collationKey Js.caseWeight b) _); cbn; lia.
Qed.

Lemma localeCompare_le (a b : string) :
  (Js.localeCompare a b <= 0)%Z <->
  String.le (Js.collationKey Js.primaryWeight a) (Js.collationKey Js.primaryWeight b)
  /\ (Js.collationKey Js.primaryWeight a = Js.collationKey Js.primaryWeight b ->
      String.le (Js.collationKey Js.caseWeight a) (Js.collationKey Js.caseWeight b)).
Proof.
  unfold Js.localeCompare, String.le, String.leb.
  destruct (String.compare (Js.collationKey Js.primaryWeight a) _) eqn:Hp.
  - apply compare_Eq in Hp.
    destruct (String.compare (Js.collationKey Js.caseWeight a) _); cbn;
      (split; [intros ?; split; [done|]; (lia || done) | intros [_ H]; (lia || by destruct (H Hp))]).
  - split; [intros _; split; [done|] | intros _; lia].
    intros Heq. apply compare_Eq in Heq. congruence.
  - cbn. split; [lia | intros [[] _]].
Qed.

Lemma localeCompare_trans (a b c : string) :
  (Js.localeCompare a b <= 0 -> Js.localeCompare b c <= 0 -> Js.localeCompare a c <= 0)%Z.
Proof.
  rewrite !localeCompare_le. intros [Hab Hab'] [Hbc Hbc']. split; [by etrans|].
  intros Hac. rewrite Hac in Hab.
  assert (Heq : Js.collationKey Js.primaryWeight b = Js.collationKey Js.primaryWeight c)
    by (by apply (anti_symm String.le)).
  etrans; [apply Hab'; congruence | by apply Hbc'].
Qed.

(** Only identical names tie. *)
Lemma localeCompare_zero (a b : string) :
  Js.isWord a = true -> Js.isWord b = true ->
  Js.localeCompare a b = 0%Z <-> a = b.
Proof.
  intros Ha Hb. split.
  - unfold Js.localeCompare.
    destruct (String.compare (Js.collationKey Js.primaryWeight a) _) eqn:Hp; try done.
    destruct (String.compare (Js.collationKey Js.caseWeight a) _) eqn:Hc; try done.
    intros _. apply compare_Eq in Hp, Hc.
    by apply (collationKey_word a b Ha Hb Hp).
  - intros ->. unfold Js.localeCompare. by rewrite !compare_refl.
Qed.

(** Letter case is looked at only between names that are the same up to
    case. *)
Lemma localeCompare_ignores_case (a b : string) :
  Js.isWord a = true -> Js.isWord b = true ->
  Js.toLowerCase a <> Js.toLowerCase b ->
  Js.localeCompare a b = Js.localeCompare (Js.toLowerCase a) (Js.toLowerCase b)
  /\ Js.localeCompare a b <> 0%Z.
Proof.
  intros Ha Hb Hne. unfold Js.localeCompare. rewrite !collationKey_lower.
  destruct (String.compare (Js.collationKey Js.primaryWeight a) _) eqn:Hp; try done.
  apply compare_Eq in Hp. by destruct (collationKey_word a b Ha Hb Hp).
Qed.

(** Between names that are the same up to case the collation is code-unit
    order backwards: lower case first. *)
Lemma localeCompare_lower_case_first (a b : string) :
  Js.toLowerCase a = Js.toLowerCase b ->
  Js.localeCompare a b = Sample.codeUnitCompare b a.
Proof.
  intros Hlow. destruct (collationKey_same_letters a b Hlow) as [Hkey Hcase].
  unfold Js.localeCompare, Sample.codeUnitCompare.
  by rewrite Hkey, compare_refl, Hcase.
Qed.

End LocaleCollation.

Section SnapshotOrder.
Import Scanner.

Lemma categoryRank_hierarchy :
  categoryRank <$> PROCESSING_HIERARCHY = seq 0 (length PROCESSING_HIERARCHY).
Proof. vm_compute. reflexivity. Qed.




End SnapshotOrder.

(** ** From the scraper to the snapshot file *)
Section ScanPipeline.
Import Scanner.

Lemma filter_Permutation_bool {A : Type} (f : A -> bool) (l1 l2 : list A) :
  l1 ≡ₚ l2 -> List.filter f l1 ≡ₚ List.filter f l2.
Proof.
  induction 1 as [|x l1 l2 _ IH|x y l|l1 l2 l3 _ IH1 _ IH2]; cbn.
  - done.
  - destruct (f x); by rewrite IH.
  - destruct (f x), (f y); try done. apply perm_swap.
  - by etrans.
Qed.

Lemma scanCatch_snapshot (requestedLayers : option (list string)) (c : Console)
    (file0 : option (list ModuleRecord)) (modules : list ModuleRecord)
    (writes : nat) (log0 : list LogEvent) :
  let run := scanCatch requestedLayers c file0 modules writes log0 in
  (snapshotFile run = file0
   \/ snapshotFile run =
      Some (Cli.filterModulesByRequestedLayers modules requestedLayers).1)
  /\ (settled run = Resolved None \/ settled run = Rejected).
Proof.
  unfold scanCatch.
  destruct (0 <? length modules)%nat; [|by split; left].
  destruct (Cli.filterModulesByRequestedLayers modules requestedLayers) as [f lg].
  destruct (writeOk c writes); cbn; split; auto.
Qed.

(** Whatever the scan writes is a filtered rearrangement of what the
    scraper returned. *)
Lemma scanModules_snapshot (localeCompare : string -> string -> Z)
    (requestedLayers : option (list string)) (c : Console)
    (file0 : option (list ModuleRecord)) :
  let run := scanModules localeCompare requestedLayers c file0 in
  snapshotFile run = file0
  \/ exists returned arranged,
       (scrapeModulesWithWarnings (listing c) (recheck c)).1 = Returned returned
       /\ returned ≡ₚ arranged
       /\ snapshotFile run =
          Some (Cli.filterModulesByRequestedLayers arranged requestedLayers).1.
Proof.
  unfold scanModules.
  destruct (negb _); [by left|].
  destruct (scrapeModulesWithWarnings (listing c) (recheck c)) as [[returned|acc] log1];
    [|by left].
  destruct (arraySort_Permutation localeCompare returned) as (sorted & Hsort & Hperm).
  unfold sortModulesByHierarchy. rewrite Hsort.
  destruct (Cli.filterModulesByRequestedLayers sorted requestedLayers) as [f lg] eqn:Hf.
  destruct (writeOk c 0).
  - right. exists returned, sorted. cbn. by rewrite Hf.
  - destruct (scanCatch_snapshot requestedLayers c file0 sorted 1
                (log1 ++ lg ++ [LogSaving (length f)])) as [[H|H] _]; [by left|].
    right. exists returned, sorted. by rewrite H.
Qed.

(** A scan that resolves with a list went through sort, filter and save. *)
Lemma scanModules_resolved (localeCompare : string -> string -> Z)
    (requestedLayers : option (list string)) (c : Console)
    (file0 : option (list ModuleRecord)) (modules : list ModuleRecord) :
  settled (scanModules localeCompare requestedLayers c file0) = Resolved (Some modules) ->
  exists returned arranged,
    (scrapeModulesWithWarnings (listing c) (recheck c)).1 = Returned returned
    /\ returned ≡ₚ arranged
    /\ modules = (Cli.filterModulesByRequestedLayers arranged requestedLayers).1
    /\ snapshotFile (scanModules localeCompare requestedLayers c file0) = Some modules.
Proof.
  unfold scanModules.
  destruct (negb _).
  { intros H. by destruct (scanCatch_snapshot requestedLayers c file0 [] 0 [])
      as [_ [H'|H']]; rewrite H' in H. }
  destruct (scrapeModulesWithWarnings (listing c) (recheck c)) as [[returned|acc] log1].
  2: { intros H. by destruct (scanCatch_snapshot requestedLayers c file0 [] 0 log1)
         as [_ [H'|H']]; rewrite H' in H. }
  destruct (arraySort_Permutation localeCompare returned) as (sorted & Hsort & Hperm).
  unfold sortModulesByHierarchy. rewrite Hsort.
  destruct (Cli.filterModulesByRequestedLayers sorted requestedLayers) as [f lg] eqn:Hf.
  destruct (writeOk c 0).
  - cbn. intros [= <-]. exists returned, sorted. by rewrite Hf.
  - intros H. by destruct (scanCatch_snapshot requestedLayers c file0 sorted 1
                             (log1 ++ lg ++ [LogSaving (length f)]))
      as [_ [H'|H']]; rewrite H' in H.
Qed.

End ScanPipeline.

Section SnapshotContents.
Import Scanner.

(** C7.  What the scraper emits is the first-seen deduplication of the
    captured rows: urls are pairwise different, and a url captured several
    times (under whatever names) has exactly one record, the first one
    captured.  The same holds of the snapshot a scan without category
    filter persists, and the urls of every persisted snapshot are pairwise
    different. *)
Theorem scan_keeps_the_first_record_per_url :
  (forall view recheck,
     let records := omap captured (rowsRead view recheck) in
     let emitted := scrapedRecords (scrapeModulesWithWarnings view recheck).1 in
     emitted = firstSeen [] records
     /\ NoDup (url <$> emitted)
     /\ forall u first,
          List.find (fun r => String.eqb (url r) u) records = Some first ->
          List.filter (fun r => String.eqb (url r) u) emitted = [first])
  /\ (forall localeCompare requestedLayers c snapshot,
        snapshotFile (scanModules localeCompare requestedLayers c None) = Some snapshot ->
        NoDup (url <$> snapshot))
  /\ (forall localeCompare c snapshot u first,
        settled (scanModules localeCompare None c None) = Resolved (Some snapshot) ->
        List.find (fun r => String.eqb (url r) u)
          (omap captured (rowsRead (listing c) (recheck c))) = Some first ->
        snapshotFile (scanModules localeCompare None c None) = Some snapshot
        /\ List.filter (fun r => String.eqb (url r) u) snapshot = [first]).
Proof.
  split; [|split].
  - intros view recheck records emitted.
    assert (Hemitted : emitted = firstSeen [] records)
      by apply scrapeModulesWithWarnings_firstSeen.
    split; [done|]. rewrite Hemitted. split.
    + apply firstSeen_NoDup.
    + intros u first Hfind. apply firstSeen_keeps_first; [done|]. apply not_elem_of_nil.
  - intros localeCompare requestedLayers c snapshot Hfile.
    destruct (scanModules_snapshot localeCompare requestedLayers c None)
      as [H|(returned & arranged & Hret & Hperm & H)]; [congruence|].
    rewrite Hfile in H. injection H as ->.
    pose proof (scrapeModulesWithWarnings_firstSeen (listing c) (recheck c)) as Hfs.
    rewrite Hret in Hfs. cbn in Hfs.
    assert (Harr : NoDup (url <$> arranged)).
    { rewrite <- Hperm, Hfs. apply firstSeen_NoDup. }
    destruct requestedLayers; cbn; [by apply NoDup_filter_fmap | done].
  - intros localeCompare c snapshot u first Hres Hfind.
    apply scanModules_resolved in Hres
      as (returned & arranged & Hret & Hperm & -> & Hfile).
    split; [done|]. cbn.
    pose proof (scrapeModulesWithWarnings_firstSeen (listing c) (recheck c)) as Hfs.
    rewrite Hret in Hfs. cbn in Hfs.
    apply Permutation_singleton_r.
    rewrite <- (filter_Permutation_bool _ _ _ Hperm), Hfs.
    rewrite (firstSeen_keeps_first _ _ _ _ Hfind); [done|]. apply not_elem_of_nil.
Qed.

(** The scenario of the specification: "a" captured as X_OS and again as
    X_OS_dup, "b" as Y_UI, a sandbox module and a module without warning. *)
Lemma scan_keeps_the_first_record_per_url_witness :
  snapshotFile (scanModules Sample.codeUnitCompare None Sample.single_page_console None)
  = Some [mkModule "a" "X_OS" "OS"; mkModule "b" "Y_UI" "UI"]
  /\ List.filter (fun r => String.eqb (url r) "a")
       [mkModule "a" "X_OS" "OS"; mkModule "b" "Y_UI" "UI"]
     = [mkModule "a" "X_OS" "OS"].
Proof.
  refine (proj2 (proj2 scan_keeps_the_first_record_per_url)
            Sample.codeUnitCompare Sample.single_page_console
            [mkModule "a" "X_OS" "OS"; mkModule "b" "Y_UI" "UI"]
            "a" (mkModule "a" "X_OS" "OS") _ _);
    vm_compute; reflexivity.
Defined.

(** C9.  A row whose module name holds "sandbox" in any letter case is
    skipped even though it carries the warning icon; no record the scraper
    accumulates, and no record of a snapshot a scan persists, has such a
    name. *)
Theorem sandbox_modules_are_excluded :
  (forall modules row link nm,
     warningIcon row = Some true ->
     moduleLink row = Some link ->
     moduleName row = Some nm ->
     Js.includes (Js.toLowerCase nm) "sandbox" = true ->
     scrapeRow modules row = (modules, [LogSkippingExcluded nm]))
  /\ (forall view recheck r,
        r ∈ scrapedRecords (scrapeModulesWithWarnings view recheck).1 ->
        Js.includes (Js.toLowerCase (name r)) "sandbox" = false)
  /\ (forall localeCompare requestedLayers c snapshot r,
        snapshotFile (scanModules localeCompare requestedLayers c None) = Some snapshot ->
        r ∈ snapshot ->
        Js.includes (Js.toLowerCase (name r)) "sandbox" = false).
Proof.
  assert (Hscraped : forall view recheck r,
             r ∈ scrapedRecords (scrapeModulesWithWarnings view recheck).1 ->
             Js.includes (Js.toLowerCase (name r)) "sandbox" = false).
  { intros view recheck r.
    rewrite scrapeModulesWithWarnings_firstSeen.
    intros [Hr _]%firstSeen_elem_of.
    apply list_elem_of_omap in Hr as (row & _ & Hrow).
    by eapply captured_without_sandbox. }
  split; [|split; [done|]].
  - intros modules row link nm Hicon Hlink Hname Hsandbox.
    unfold scrapeRow. by rewrite Hicon, Hlink, Hname, Hsandbox.
  - intros localeCompare requestedLayers c snapshot r Hfile Hr.
    destruct (scanModules_snapshot localeCompare requestedLayers c None)
      as [H|(returned & arranged & Hret & Hperm & H)]; [congruence|].
    rewrite Hfile in H. injection H as ->.
    apply (Hscraped (listing c) (recheck c)). rewrite Hret. cbn.
    rewrite Hperm.
    destruct requestedLayers; cbn in Hr; [|done].
    by apply filter_elem_of in Hr as [? _].
Qed.

Lemma sandbox_modules_are_excluded_witness :
  scrapeRow [] (Sample.warning_row "c" "Team_SandBox_CS")
  = ([], [LogSkippingExcluded "Team_SandBox_CS"]).
Proof.
  refine (proj1 sandbox_modules_are_excluded []
            (Sample.warning_row "c" "Team_SandBox_CS") "c" "Team_SandBox_CS" _ _ _ _);
    reflexivity.
Defined.

End SnapshotContents.

(** ** A scan that fails while it accumulates *)
Section PartialScan.
Import Scanner.

(** When the scraper throws, the records it held are out of reach of
    [scanModules], whose own [modules] is still the empty array: the [catch]
    block saves nothing and the promise resolves to [undefined]. *)
Lemma scanModules_discards_when_scraper_throws
    (localeCompare : string -> string -> Z) (requestedLayers : option (list string))
    (c : Console) (file0 : option (list ModuleRecord)) (accumulated : list ModuleRecord) :
  (scrapeModulesWithWarnings (listing c) (recheck c)).1 = Threw accumulated ->
  let run := scanModules localeCompare requestedLayers c file0 in
  snapshotFile run = file0 /\ settled run = Resolved None.
Proof.
  intros Hthrew. unfold scanModules.
  destruct (negb _); [done|].
  destruct (scrapeModulesWithWarnings (listing c) (recheck c)) as [result log1].
  cbn in Hthrew. by subst result.
Qed.

(** C2 at a failing input.  The listing shows two modules in warning (one
    of them twice), and turning the page times out.  The scraper held two
    records when it threw; the scan writes nothing (the snapshot file is
    what it was, here absent), logs no partial save, and resolves to
    [undefined], upon which the script reports that the scan finished with
    errors. *)
Theorem partial_scan_is_discarded :
  (scrapeModulesWithWarnings (listing Sample.stuck_console)
     (recheck Sample.stuck_console)).1
  = Threw [mkModule "a" "X_OS" "OS"; mkModule "b" "Y_UI" "UI"]
  /\ (forall localeCompare requestedLayers file0,
        let run := scanModules localeCompare requestedLayers Sample.stuck_console file0 in
        snapshotFile run = file0 /\ settled run = Resolved None)
  /\ (let run := main Sample.codeUnitCompare [] Sample.stuck_console None in
      snapshotFile run = None
      /\ settled run = Resolved None
      /\ scanLog run =
         [LogFoundOutdated (mkModule "a" "X_OS" "OS");
          LogFoundOutdated (mkModule "b" "Y_UI" "UI");
          LogSkippingExcluded "Team_SandBox_CS";
          LogUnknownSuffix "dup" "X_OS_dup";
          ErrDuringScanning;
          LogScanFinishedWithErrors]).
Proof.
  split; [vm_compute; reflexivity|]. split.
  - intros localeCompare requestedLayers file0.
    eapply scanModules_discards_when_scraper_throws. vm_compute. reflexivity.
  - repeat split; vm_compute; reflexivity.
Qed.

End PartialScan.

(* ===================================================================== *)
(** * Part III: further properties of the scripts *)
(* ===================================================================== *)

(** ** The category filter on a list of modules *)
Section LayerFilter.
Import Cli.

(** X1.  Filtering by requested layers keeps exactly the modules whose
    category is requested, in their order; it never adds or reorders, and
    filtering a second time changes nothing. *)
Theorem filter_keeps_requested_layers_in_order
    (modules : list ModuleRecord) (layers : list string) :
  let filtered := (filterModulesByRequestedLayers modules (Some layers)).1 in
  filtered `sublist_of` modules
  /\ (forall m, m ∈ filtered <-> m ∈ modules /\ suffix m ∈ layers)
  /\ (filterModulesByRequestedLayers filtered (Some layers)).1 = filtered
  /\ (Forall (fun m => suffix m ∈ layers) modules -> filtered = modules)
  /\ (filterModulesByRequestedLayers modules (Some [])).1 = [].
Proof.
  cbn. split; [apply filter_sublist|]. split.
  { intros m. rewrite filter_elem_of. unfold Js.arrayIncludes.
    by rewrite bool_decide_eq_true. }
  split.
  { induction modules as [|m modules IH]; [done|]. cbn.
    destruct (Js.arrayIncludes layers (suffix m)) eqn:Hm; [|done].
    cbn. by rewrite Hm, IH. }
  split.
  { induction 1 as [|m modules Hm _ IH]; [done|]. cbn.
    unfold Js.arrayIncludes at 1. rewrite bool_decide_true by done.
    by rewrite IH. }
  apply filter_none. intros m _. unfold Js.arrayIncludes.
  apply bool_decide_eq_false, not_elem_of_nil.
Qed.

Lemma matchLayer_in_hierarchy (token layer : string) :
  matchLayer token = Some layer -> layer ∈ PROCESSING_HIERARCHY.
Proof.
  intros Hfind. apply find_some in Hfind as [Hin _]. by apply list_elem_of_In.
Qed.

Lemma omap_length_le {A B : Type} (f : A -> option B) (l : list A) :
  length (omap f l) <= length l.
Proof.
  induction l as [|x l IH]; cbn; [lia|]. destruct (f x); cbn; lia.
Qed.

(** X2.  When the argument parser returns a list of layers, the list is
    not empty, holds only categories of the hierarchy in the hierarchy's
    spelling, has at most one entry per token of the first argument, and
    depends on the first argument only. *)
Theorem parsed_layers_are_hierarchy_layers
    (args : list string) (layers : list string) :
  (parseRequestedLayers args).1 = Some layers ->
  layers <> []
  /\ Forall (fun layer => layer ∈ PROCESSING_HIERARCHY) layers
  /\ exists layersArg rest,
       args = layersArg :: rest
       /\ length layers <= length (Js.split "," layersArg)
       /\ parseRequestedLayers [layersArg] = parseRequestedLayers args.
Proof.
  destruct args as [|layersArg rest]; [done|].
  intros Hparsed.
  pose proof (parseRequestedLayers_unfold layersArg rest) as Hunfold.
  rewrite Hunfold in Hparsed.
  destruct (recognisedLayers layersArg) as [|l ls] eqn:Hrec; [done|].
  cbn in Hparsed. injection Hparsed as <-. split; [done|]. split.
  - rewrite <- Hrec. unfold recognisedLayers. apply Forall_forall.
    intros layer (token & _ & Hm)%list_elem_of_omap.
    by eapply matchLayer_in_hierarchy.
  - exists layersArg, rest. split; [done|]. split.
    + rewrite <- Hrec. unfold recognisedLayers.
      etrans; [apply omap_length_le|]. by rewrite length_fmap.
    + by rewrite !parseRequestedLayers_unfold.
Qed.

Lemma parsed_layers_are_hierarchy_layers_witness :
  ["OS"; "UI"; "OS"] <> []
  /\ Forall (fun layer => layer ∈ PROCESSING_HIERARCHY) ["OS"; "UI"; "OS"]
  /\ exists layersArg rest,
       ["os, Ui ,xx,OS"; "BL"] = layersArg :: rest
       /\ length ["OS"; "UI"; "OS"] <= length (Js.split "," layersArg)
       /\ parseRequestedLayers [layersArg] = parseRequestedLayers ["os, Ui ,xx,OS"; "BL"].
Proof.
  apply (parsed_layers_are_hierarchy_layers ["os, Ui ,xx,OS"; "BL"]).
  vm_compute. reflexivity.
Defined.

End LayerFilter.

(** ** What a scan leaves in the snapshot *)
Section SnapshotShape.
Import Scanner.

Lemma captured_suffix (row : Row) (r : ModuleRecord) :
  captured row = Some r ->
  suffix r ∈ PROCESSING_HIERARCHY
  /\ suffix r =
     if Js.arrayIncludes PROCESSING_HIERARCHY (Js.pop (Js.split "_" (name r)))
     then Js.pop (Js.split "_" (name r)) else "UI".
Proof.
  unfold captured.
  destruct (warningIcon row) as [[|]|]; [|done..].
  destruct (moduleLink row) as [link|]; [|done].
  destruct (moduleName row) as [nm|]; [|done].
  destruct (Js.includes (Js.toLowerCase nm) "sandbox"); [done|].
  intros [= <-]. cbn [suffix name]. split; [|done].
  destruct (Js.arrayIncludes PROCESSING_HIERARCHY _) eqn:Hin.
  - by apply bool_decide_eq_true in Hin.
  - apply (bool_decide_unpack _). vm_compute. reflexivity.
Qed.

Lemma scraped_records_captured (view : Listing) (recheck : option (list Row))
    (r : ModuleRecord) :
  r ∈ scrapedRecords (scrapeModulesWithWarnings view recheck).1 ->
  exists row, row ∈ rowsRead view recheck /\ captured row = Some r.
Proof.
  rewrite scrapeModulesWithWarnings_firstSeen.
  intros [Hr _]%firstSeen_elem_of.
  by apply list_elem_of_omap in Hr.
Qed.

(** X3.  Every record the scraper accumulates, and every record of a
    snapshot a scan persists, carries a category of the hierarchy: the last
    "_"-separated piece of the module name, as it is spelled (the scraper
    converts no case), when that is a category, and "UI" otherwise.  A
    category outside the hierarchy never reaches the sort or the file. *)
Theorem snapshot_categories_are_recognised :
  (forall view recheck r,
     r ∈ scrapedRecords (scrapeModulesWithWarnings view recheck).1 ->
     suffix r ∈ PROCESSING_HIERARCHY
     /\ suffix r =
        if Js.arrayIncludes PROCESSING_HIERARCHY (Js.pop (Js.split "_" (name r)))
        then Js.pop (Js.split "_" (name r)) else "UI")
  /\ (forall localeCompare requestedLayers c snapshot r,
        snapshotFile (scanModules localeCompare requestedLayers c None) = Some snapshot ->
        r ∈ snapshot ->
        suffix r ∈ PROCESSING_HIERARCHY
        /\ rankOf (suffix r) = Js.Num (Z.of_nat (categoryRank (suffix r)))).
Proof.
  assert (Hscraped : forall view recheck r,
             r ∈ scrapedRecords (scrapeModulesWithWarnings view recheck).1 ->
             suffix r ∈ PROCESSING_HIERARCHY
             /\ suffix r =
                if Js.arrayIncludes PROCESSING_HIERARCHY (Js.pop (Js.split "_" (name r)))
                then Js.pop (Js.split "_" (name r)) else "UI").
  { intros view recheck r (row & _ & Hrow)%scraped_records_captured.
    by apply captured_suffix in Hrow. }
  split; [done|].
  intros localeCompare requestedLayers c snapshot r Hfile Hr.
  assert (Hin : suffix r ∈ PROCESSING_HIERARCHY).
  { destruct (scanModules_snapshot localeCompare requestedLayers c None)
      as [H|(returned & arranged & Hret & Hperm & H)]; [congruence|].
    rewrite Hfile in H. injection H as ->.
    apply (Hscraped (listing c) (recheck c)). rewrite Hret. cbn.
    rewrite Hperm.
    destruct requestedLayers; cbn in Hr; [|done].
    by apply filter_elem_of in Hr as [? _]. }
  split; [done|]. rewrite rankOf_spec. by rewrite bool_decide_true.
Qed.

Lemma snapshot_categories_are_recognised_witness :
  suffix (mkModule "a" "X_OS_dup" "UI") ∈ PROCESSING_HIERARCHY
  /\ suffix (mkModule "a" "X_OS_dup" "UI") =
     if Js.arrayIncludes PROCESSING_HIERARCHY
          (Js.pop (Js.split "_" (name (mkModule "a" "X_OS_dup" "UI"))))
     then Js.pop (Js.split "_" (name (mkModule "a" "X_OS_dup" "UI"))) else "UI".
Proof.
  refine (proj1 snapshot_categories_are_recognised
            (LastPage [Sample.warning_row "a" "X_OS_dup"] NextAbsent) None
            (mkModule "a" "X_OS_dup" "UI") _).
  apply (bool_decide_unpack _). vm_compute. reflexivity.
Defined.

Lemma Forall_filter_bool {A : Type} (P : A -> Prop) (f : A -> bool) (l : list A) :
  Forall P l -> Forall P (List.filter f l).
Proof.
  induction 1 as [|x l Hx _ IH]; cbn; [constructor|].
  destruct (f x); [by constructor | done].
Qed.

Lemma StronglySorted_filter_bool {A : Type} (R : A -> A -> Prop) (f : A -> bool)
    (l : list A) :
  StronglySorted R l -> StronglySorted R (List.filter f l).
Proof.
  induction 1 as [|x l _ IH Hx]; cbn; [constructor|].
  destruct (f x); [|done].
  constructor; [done|]. by apply Forall_filter_bool.
Qed.

(** A scan that resolves with a list has sorted what the scraper returned
    and filtered the sorted array. *)
Lemma scanModules_resolved_sorted (localeCompare : string -> string -> Z)
    (requestedLayers : option (list string)) (c : Console)
    (file0 : option (list ModuleRecord)) (modules : list ModuleRecord) :
  settled (scanModules localeCompare requestedLayers c file0) = Resolved (Some modules) ->
  exists returned sorted,
    (scrapeModulesWithWarnings (listing c) (recheck c)).1 = Returned returned
    /\ sortModulesByHierarchy localeCompare returned = Some sorted
    /\ modules = (Cli.filterModulesByRequestedLayers sorted requestedLayers).1
    /\ writeOk c 0 = true
    /\ (loginOk c && listPageOk c && warningFilterOk c) = true.
Proof.
  unfold scanModules.
  destruct (loginOk c && listPageOk c && warningFilterOk c); cbn [negb].
  2: { intros H. by destruct (scanCatch_snapshot requestedLayers c file0 [] 0 [])
         as [_ [H'|H']]; rewrite H' in H. }
  destruct (scrapeModulesWithWarnings (listing c) (recheck c)) as [[returned|acc] log1].
  2: { intros H. by destruct (scanCatch_snapshot requestedLayers c file0 [] 0 log1)
         as [_ [H'|H']]; rewrite H' in H. }
  destruct (arraySort_Permutation localeCompare returned) as (sorted & Hsort & Hperm).
  unfold sortModulesByHierarchy. rewrite Hsort.
  destruct (Cli.filterModulesByRequestedLayers sorted requestedLayers) as [f lg] eqn:Hf.
  destruct (writeOk c 0).
  - cbn. intros [= <-]. exists returned, sorted. by rewrite Hf.
  - intros H. by destruct (scanCatch_snapshot requestedLayers c file0 sorted 1
                             (log1 ++ lg ++ [LogSaving (length f)]))
      as [_ [H'|H']]; rewrite H' in H.
Qed.

(** X4.  With a collation that is a consistent comparator, the list a scan
    resolves with is what it has written to the snapshot file, is in
    snapshot order, has pairwise different urls, and, under a category
    argument, holds requested categories only. *)
Theorem resolved_scan_snapshot_is_sorted
    (localeCompare : string -> string -> Z) (requestedLayers : option (list string))
    (c : Console) (file0 : option (list ModuleRecord)) (modules : list ModuleRecord) :
  (forall a b, (localeCompare a b < 0 <-> 0 < localeCompare b a)%Z) ->
  (forall a b c, (localeCompare a b <= 0 -> localeCompare b c <= 0 ->
                  localeCompare a c <= 0)%Z) ->
  settled (scanModules localeCompare requestedLayers c file0) = Resolved (Some modules) ->
  snapshotFile (scanModules localeCompare requestedLayers c file0) = Some modules
  /\ StronglySorted (inSnapshotOrder localeCompare) modules
  /\ NoDup (url <$> modules)
  /\ (forall layers, requestedLayers = Some layers ->
                     Forall (fun m => suffix m ∈ layers) modules).
Proof.
  intros Hanti Htrans Hres.
  pose proof (scanModules_resolved _ _ _ _ _ Hres)
    as (returned' & arranged & Hret' & Hperm & _ & Hfile).
  apply scanModules_resolved_sorted in Hres
    as (returned & sorted & Hret & Hsort & -> & _).
  split; [done|].
  destruct (arraySort_sorted localeCompare Hanti Htrans returned)
    as (sorted' & Hsort' & Hsorted & _).
  unfold sortModulesByHierarchy in Hsort.
  assert (sorted' = sorted) as -> by congruence.
  destruct (arraySort_Permutation localeCompare returned) as (sorted'' & Hs'' & Hp).
  assert (sorted'' = sorted) as -> by congruence.
  pose proof (scrapeModulesWithWarnings_firstSeen (listing c) (recheck c)) as Hfs.
  rewrite Hret in Hfs. cbn in Hfs.
  assert (Hnodup : NoDup (url <$> sorted)).
  { rewrite <- Hp, Hfs. apply firstSeen_NoDup. }
  destruct requestedLayers as [layers|]; cbn.
  - split; [by apply StronglySorted_filter_bool|].
    split; [by apply NoDup_filter_fmap|].
    intros ? [= <-]. apply Forall_forall. intros m [_ Hm]%filter_elem_of.
    by apply bool_decide_eq_true in Hm.
  - by repeat split.
Qed.

Lemma resolved_scan_snapshot_is_sorted_witness :
  snapshotFile (scanModules Sample.codeUnitCompare (Some ["UI"])
                  Sample.single_page_console None)
  = Some [mkModule "b" "Y_UI" "UI"]
  /\ StronglySorted (inSnapshotOrder Sample.codeUnitCompare) [mkModule "b" "Y_UI" "UI"]
  /\ NoDup (url <$> [mkModule "b" "Y_UI" "UI"])
  /\ (forall layers, Some ["UI"] = Some layers ->
                     Forall (fun m => suffix m ∈ layers) [mkModule "b" "Y_UI" "UI"]).
Proof.
  apply (resolved_scan_snapshot_is_sorted Sample.codeUnitCompare (Some ["UI"])
           Sample.single_page_console None [mkModule "b" "Y_UI" "UI"]).
  - exact codeUnitCompare_antisym.
  - exact codeUnitCompare_trans.
  - vm_compute. reflexivity.
Defined.

End SnapshotShape.

(** ** Filtering at scan time and at publish time *)
Section FilterStages.
Import Scanner.

Lemma tabTurn_keeps_taskQueue (b : Publisher.Browser) (subdomain : string) (tab : nat)
    (p : Publisher.Pool) :
  Publisher.taskQueue (Publisher.queue (Publisher.tabTurn b subdomain tab p))
  = Publisher.taskQueue (Publisher.queue p).
Proof.
  unfold Publisher.tabTurn, Publisher.getNextTask.
  repeat case_match; simplify_eq; done.
Qed.

Lemma runSchedule_keeps_taskQueue (ENV : string) (b : Publisher.Browser)
    (schedule : list (string * nat)) (p : Publisher.Pool) :
  Publisher.taskQueue (Publisher.queue (Publisher.runSchedule ENV b schedule p))
  = Publisher.taskQueue (Publisher.queue p).
Proof.
  unfold Publisher.runSchedule.
  revert p. induction schedule as [|w schedule IH]; intros p; [done|].
  cbn [foldl]. rewrite IH. case_bool_decide; [apply tabTurn_keeps_taskQueue | done].
Qed.

(** The queue of a publish run is the urls of the filtered snapshot, in
    snapshot order, whatever the tabs do. *)
Lemma processURLs_taskQueue (ENV : string) (requestedLayers : option (list string))
    (snapshot : list ModuleRecord) (b : Publisher.Browser)
    (schedule : list (string * nat)) :
  Publisher.taskQueue
    (Publisher.queue (Publisher.processURLs ENV requestedLayers (Some snapshot) b schedule))
  = url <$> (Cli.filterModulesByRequestedLayers snapshot requestedLayers).1.
Proof.
  unfold Publisher.processURLs.
  destruct (Cli.filterModulesByRequestedLayers snapshot requestedLayers) as [f lg].
  by rewrite runSchedule_keeps_taskQueue.
Qed.

(** X5.  The category filter may be given to the scan, to the publish run
    or to both: when the unfiltered scan resolves with a list, the scan
    with the filter resolves with the filtered list, and the three ways
    fill the task queue with the same urls in the same order. *)
Theorem filter_at_scan_or_at_publish
    (localeCompare : string -> string -> Z) (c : Console)
    (file0 : option (list ModuleRecord)) (layers : list string)
    (full : list ModuleRecord) :
  settled (scanModules localeCompare None c file0) = Resolved (Some full) ->
  let narrowed := (Cli.filterModulesByRequestedLayers full (Some layers)).1 in
  settled (scanModules localeCompare (Some layers) c file0) = Resolved (Some narrowed)
  /\ snapshotFile (scanModules localeCompare (Some layers) c file0) = Some narrowed
  /\ forall ENV b schedule,
       Publisher.taskQueue
         (Publisher.queue (Publisher.processURLs ENV (Some layers) (Some full) b schedule))
       = url <$> narrowed
       /\ Publisher.taskQueue
            (Publisher.queue (Publisher.processURLs ENV None (Some narrowed) b schedule))
          = url <$> narrowed
       /\ Publisher.taskQueue
            (Publisher.queue
               (Publisher.processURLs ENV (Some layers) (Some narrowed) b schedule))
          = url <$> narrowed.
Proof.
  intros Hres narrowed.
  apply scanModules_resolved_sorted in Hres
    as (returned & sorted & Hret & Hsort & Hfull & Hwrite & Hok).
  cbn in Hfull. subst full.
  assert (Hscan : scanModules localeCompare (Some layers) c file0 =
                  {| settled := Resolved (Some narrowed);
                     snapshotFile := Some narrowed;
                     scanLog := scanLog (scanModules localeCompare (Some layers) c file0) |}).
  { unfold scanModules. rewrite Hok. cbn [negb].
    destruct (scrapeModulesWithWarnings (listing c) (recheck c)) as [result log1].
    cbn in Hret. subst result. rewrite Hsort. cbn. by rewrite Hwrite. }
  split; [by rewrite Hscan|]. split; [by rewrite Hscan|].
  intros ENV b schedule. rewrite !processURLs_taskQueue.
  split; [done|]. split; [done|].
  f_equal. unfold narrowed.
  by destruct (filter_keeps_requested_layers_in_order sorted layers) as (_ & _ & -> & _).
Qed.

Lemma filter_at_scan_or_at_publish_witness :
  let narrowed :=
    (Cli.filterModulesByRequestedLayers
       [mkModule "a" "X_OS" "OS"; mkModule "b" "Y_UI" "UI"] (Some ["UI"])).1 in
  settled (scanModules Sample.codeUnitCompare (Some ["UI"]) Sample.single_page_console None)
  = Resolved (Some narrowed)
  /\ snapshotFile
       (scanModules Sample.codeUnitCompare (Some ["UI"]) Sample.single_page_console None)
     = Some narrowed
  /\ forall ENV b schedule,
       Publisher.taskQueue
         (Publisher.queue
            (Publisher.processURLs ENV (Some ["UI"])
               (Some [mkModule "a" "X_OS" "OS"; mkModule "b" "Y_UI" "UI"]) b schedule))
       = url <$> narrowed
       /\ Publisher.taskQueue
            (Publisher.queue (Publisher.processURLs ENV None (Some narrowed) b schedule))
          = url <$> narrowed
       /\ Publisher.taskQueue
            (Publisher.queue
               (Publisher.processURLs ENV (Some ["UI"]) (Some narrowed) b schedule))
          = url <$> narrowed.
Proof.
  apply (filter_at_scan_or_at_publish Sample.codeUnitCompare Sample.single_page_console
           None ["UI"] [mkModule "a" "X_OS" "OS"; mkModule "b" "Y_UI" "UI"]).
  vm_compute. reflexivity.
Defined.

(** The scraper returns, rather than throws, when the loop ends by a break
    and either something was captured or the second look succeeds. *)
Lemma scrape_nothing_captured (view : Listing) (rows : list Row) :
  loopThrows view = false ->
  omap captured (listed view) = [] ->
  omap captured rows = [] ->
  (scrapeModulesWithWarnings view (Some rows)).1 = Returned []
  /\ (scrapeModulesWithWarnings view None).1 = Threw [].
Proof.
  intros Hloop Hcaps Hrows. unfold scrapeModulesWithWarnings.
  pose proof (scrapeLoop_listed [] view) as Hl.
  rewrite Hloop, scrapeRows_firstSeen, Hcaps in Hl. cbn in Hl.
  destruct (scrapeLoop [] view) as [e log1]. cbn in Hl. subst e. cbn.
  pose proof (scrapeRows_firstSeen [] rows) as Hr.
  rewrite Hrows in Hr. cbn in Hr.
  destruct (scrapeRows [] rows) as [m l]. cbn in Hr. by subst m.
Qed.

(** X6.  A scan that finds no module in warning is not a failed scan: when
    the listing ends normally, no row is captured and the second look at the
    table captures none either, the scan overwrites the snapshot file with
    the empty list, whatever it held, and reports zero modules ready; when
    the second look itself fails, the file is left as it was and the scan
    reports errors. *)
Theorem empty_scan_overwrites_snapshot
    (localeCompare : string -> string -> Z) (args : list string) (c : Console)
    (file0 : option (list ModuleRecord)) (rows : list Row) :
  loginOk c = true -> listPageOk c = true -> warningFilterOk c = true ->
  loopThrows (listing c) = false ->
  omap captured (listed (listing c)) = [] ->
  omap captured rows = [] ->
  writeOk c 0 = true ->
  (recheck c = Some rows ->
   settled (main localeCompare args c file0) = Resolved (Some [])
   /\ snapshotFile (main localeCompare args c file0) = Some []
   /\ last (scanLog (main localeCompare args c file0)) = Some (LogModulesReady 0))
  /\ (recheck c = None ->
      settled (main localeCompare args c file0) = Resolved None
      /\ snapshotFile (main localeCompare args c file0) = file0
      /\ last (scanLog (main localeCompare args c file0)) = Some LogScanFinishedWithErrors).
Proof.
  intros Hlogin Hlist Hfilter Hloop Hcaps Hrows Hwrite.
  destruct (scrape_nothing_captured (listing c) rows Hloop Hcaps Hrows)
    as [Hsome Hnone].
  unfold main. destruct (Cli.parseRequestedLayers args) as [layers log0].
  unfold scanModules. rewrite Hlogin, Hlist, Hfilter. cbn [andb negb].
  split; intros Hrecheck; rewrite Hrecheck.
  - destruct (scrapeModulesWithWarnings (listing c) (Some rows)) as [result log1].
    cbn in Hsome. subst result. cbn [sortModulesByHierarchy arraySort].
    assert (Hf : (Cli.filterModulesByRequestedLayers [] layers).1 = [])
      by (by destruct layers).
    destruct (Cli.filterModulesByRequestedLayers [] layers) as [f lg].
    cbn in Hf. subst f. rewrite Hwrite. cbn.
    repeat split. by rewrite !app_assoc, last_snoc.
  - destruct (scrapeModulesWithWarnings (listing c) None) as [result log1].
    cbn in Hnone. subst result. cbn.
    repeat split. by rewrite !app_assoc, last_snoc.
Qed.

Lemma empty_scan_overwrites_snapshot_witness :
  (recheck Scenario.empty_console = Some [] ->
   settled (main Sample.codeUnitCompare [] Scenario.empty_console
              (Some Scenario.old_snapshot)) = Resolved (Some [])
   /\ snapshotFile (main Sample.codeUnitCompare [] Scenario.empty_console
                      (Some Scenario.old_snapshot)) = Some []
   /\ last (scanLog (main Sample.codeUnitCompare [] Scenario.empty_console
                       (Some Scenario.old_snapshot))) = Some (LogModulesReady 0))
  /\ (recheck Scenario.empty_console = None ->
      settled (main Sample.codeUnitCompare [] Scenario.empty_console
                 (Some Scenario.old_snapshot)) = Resolved None
      /\ snapshotFile (main Sample.codeUnitCompare [] Scenario.empty_console
                         (Some Scenario.old_snapshot)) = Some Scenario.old_snapshot
      /\ last (scanLog (main Sample.codeUnitCompare [] Scenario.empty_console
                          (Some Scenario.old_snapshot))) = Some LogScanFinishedWithErrors).
Proof.
  apply (empty_scan_overwrites_snapshot Sample.codeUnitCompare [] Scenario.empty_console
           (Some Scenario.old_snapshot) []); reflexivity.
Defined.

End FilterStages.

(** ** Progress of the pool *)
Section PoolProgress.
Import Publisher.

Variable ENV : string.
Variable b : Browser.
Variable w : string * nat.
Variable items : list string.
Hypothesis w_login : loginOk b w.1 = true.
Hypothesis w_loads : forall task, task ∈ items -> gotoOk b (replaceHost w.1 task) = true.
Hypothesis items_nonempty : "" ∉ items.

(** The queue holds the items, the cursor is in range, and the tab [w] has
    only left its loop if the queue was exhausted. *)
Lemma tabTurn_keeps_live_tab (v : string * nat) (p : Pool) :
  taskQueue (queue p) = items
  /\ taskIndex (queue p) <= length items
  /\ (is_Some (exited p !! w) -> taskIndex (queue p) = length items) ->
  let p1 := tabTurn b v.1 v.2 p in
  (taskQueue (queue p1) = items
   /\ taskIndex (queue p1) <= length items
   /\ (is_Some (exited p1 !! w) -> taskIndex (queue p1) = length items))
  /\ taskIndex (queue p) <= taskIndex (queue p1)
  /\ (v = w -> length items - taskIndex (queue p1)
               <= pred (length items - taskIndex (queue p))).
Proof.
  intros (Hq & Hk & Hw). destruct v as [g t]. cbn [fst snd]. unfold tabTurn.
  destruct (loginOk b g) eqn:Hlogin; cbn [negb].
  2: { repeat split; try done. intros Hvw.
       pose proof w_login as Hl. rewrite <- Hvw in Hl. cbn in Hl. congruence. }
  destruct (exited p !! (g, t)) as [e|] eqn:Hexit.
  { repeat split; try done. intros Hvw.
    rewrite Hw by (rewrite <- Hvw, Hexit; eauto). lia. }
  destruct p as [[l k] ex cl vis lg].
  cbn [queue taskQueue taskIndex exited claims visited pubLog] in *. subst l.
  destruct (items !! k) as [x|] eqn:Hx.
  - rewrite (getNextTask_in_range _ _ _ Hx).
    assert (Hxin : x ∈ items) by (by eapply list_elem_of_lookup_2).
    assert (Hfalsy : Js.falsy (Some x) = false).
    { cbn. apply String.eqb_neq. by intros ->. }
    rewrite Hfalsy. cbn [default from_option]. unfold id.
    assert (Hk1 : S k <= length items) by (apply lookup_lt_Some in Hx; lia).
    assert (Hlive : is_Some (ex !! w) -> False).
    { intros Hs. apply Hw in Hs. apply lookup_lt_Some in Hx. lia. }
    destruct (gotoOk b (replaceHost g x)) eqn:Hgoto.
    + assert (Hcases : forall lg1,
                 let p1 := {| queue := {| taskQueue := items; taskIndex := S k |};
                              exited := ex;
                              claims := cl ++ [mkClaim g t x];
                              visited := vis ++ [replaceHost g x];
                              pubLog := lg1 |} in
                 (taskQueue (queue p1) = items
                  /\ taskIndex (queue p1) <= length items
                  /\ (is_Some (exited p1 !! w) -> taskIndex (queue p1) = length items))
                 /\ k <= taskIndex (queue p1)
                 /\ ((g, t) = w -> length items - taskIndex (queue p1)
                                   <= pred (length items - k))).
      { intros lg1. cbn. repeat split; try lia. by intros ?%Hlive. }
      destruct (isModuleInWarning (statusProbe b (replaceHost g x)));
        [destruct (processPublishPage (publishAttempt b (replaceHost g x))
                     (replaceHost g x)) as [r lg2]|];
        apply Hcases.
    + cbn. repeat split; try lia.
      * rewrite lookup_insert. case_decide as Hgw; [|by intros ?%Hlive].
        pose proof (w_loads x Hxin) as Hl. rewrite <- Hgw in Hl. cbn in Hl.
        congruence.
  - apply lookup_ge_None in Hx.
    rewrite (getNextTask_exhausted _ _ Hx). cbn.
    repeat split; try lia.
Qed.

Lemma runSchedule_drains (schedule : list (string * nat)) (p : Pool) :
  taskQueue (queue p) = items
  /\ taskIndex (queue p) <= length items
  /\ (is_Some (exited p !! w) -> taskIndex (queue p) = length items) ->
  w ∈ tabs ENV ->
  length items - taskIndex (queue p) <= Scenario.turnsOf w schedule ->
  taskIndex (queue (runSchedule ENV b schedule p)) = length items.
Proof.
  intros Hinv Hw. unfold runSchedule. revert p Hinv.
  induction schedule as [|v schedule IH]; intros p Hinv Hturns.
  - unfold Scenario.turnsOf in Hturns. cbn in Hturns |- *.
    destruct Hinv as (_ & ? & _). lia.
  - cbn [foldl]. unfold Scenario.turnsOf in Hturns. cbn [List.filter] in Hturns.
    destruct (tabTurn_keeps_live_tab v p Hinv) as (Hinv1 & Hmono & Hstep).
    case_bool_decide as Hv.
    + subst v. rewrite bool_decide_true by done.
      apply IH; [done|]. specialize (Hstep eq_refl).
      cbn [length] in Hturns. unfold Scenario.turnsOf. lia.
    + case_bool_decide as Hin.
      * apply IH; [done|]. unfold Scenario.turnsOf. lia.
      * apply IH; [done|]. unfold Scenario.turnsOf. lia.
Qed.

End PoolProgress.

Section PoolBounds.
Import Publisher.

(** X7.  One healthy tab is enough to drain the queue: if a tab of the
    pool belongs to a group whose login succeeds, every page it is sent to
    loads, and it has at least as many turns as there are items, then at the
    end of the run the cursor is at the end of the queue and every item has
    been taken, in queue order, whatever happens to the other tabs. *)
Theorem one_healthy_tab_drains_the_queue
    (ENV : string) (requestedLayers : option (list string))
    (snapshot : list ModuleRecord) (b : Browser) (schedule : list (string * nat))
    (w : string * nat) :
  w ∈ tabs ENV ->
  loginOk b w.1 = true ->
  (forall m, m ∈ snapshot -> gotoOk b (replaceHost w.1 (url m)) = true) ->
  Forall (fun m => url m <> "") snapshot ->
  let items := url <$> (Cli.filterModulesByRequestedLayers snapshot requestedLayers).1 in
  length items <= Scenario.turnsOf w schedule ->
  let p := processURLs ENV requestedLayers (Some snapshot) b schedule in
  taskIndex (queue p) = length items
  /\ claimTask <$> claims p = items.
Proof.
  intros Hw Hlogin Hloads Hurls items Hturns p.
  assert (Hsub : forall u, u ∈ items -> exists m, m ∈ snapshot /\ u = url m).
  { unfold items. intros u (m & -> & Hm)%list_elem_of_fmap. exists m. split; [|done].
    destruct requestedLayers; cbn in Hm; [|done].
    by apply filter_elem_of in Hm as [? _]. }
  assert (Hne : "" ∉ items).
  { intros (m & Hm & Hu)%Hsub. rewrite Forall_forall in Hurls. by eapply Hurls. }
  assert (Hgoto : forall task, task ∈ items -> gotoOk b (replaceHost w.1 task) = true).
  { intros task (m & Hm & ->)%Hsub. by apply Hloads. }
  assert (Hidx : taskIndex (queue p) = length items).
  { unfold p, processURLs.
    destruct (Cli.filterModulesByRequestedLayers snapshot requestedLayers)
      as [filtered lg] eqn:Hf.
    apply (runSchedule_drains ENV b w items Hlogin Hgoto Hne); [|done|].
    - cbn. unfold items. cbn. repeat split; [lia|].
      intros [? H]. by rewrite lookup_empty in H.
    - cbn [queue taskIndex]. lia. }
  split; [done|].
  assert (Hfollows : claimTask <$> claims p = take (taskIndex (queue p)) items).
  { unfold p, processURLs.
    destruct (Cli.filterModulesByRequestedLayers snapshot requestedLayers)
      as [filtered lg] eqn:Hf.
    apply runSchedule_follows_queue; [done|]. cbn. unfold items. cbn.
    repeat split; try done; lia. }
  rewrite Hfollows, Hidx. apply firstn_all.
Qed.

Lemma one_healthy_tab_drains_the_queue_witness :
  let items := url <$> (Cli.filterModulesByRequestedLayers Sample.eleven_records None).1 in
  let p := processURLs "dev" None (Some Sample.eleven_records)
             (Scenario.lockedOut "dev") (roundRobin "dev" 11) in
  taskIndex (queue p) = length items
  /\ claimTask <$> claims p = items.
Proof.
  apply (one_healthy_tab_drains_the_queue "dev" None Sample.eleven_records
           (Scenario.lockedOut "dev") (roundRobin "dev" 11) ("devsc", 1)).
  - apply (bool_decide_unpack _). vm_compute. reflexivity.
  - reflexivity.
  - reflexivity.
  - apply (bool_decide_unpack _). vm_compute. reflexivity.
  - vm_compute. lia.
Defined.

End PoolBounds.

(** ** Bounded work and group isolation *)
Section PoolAccounting.
Import Publisher.

Lemma attemptsMade_app (l1 l2 : list PubEvent) :
  attemptsMade (l1 ++ l2) = attemptsMade l1 + attemptsMade l2.
Proof. unfold attemptsMade. by rewrite List.filter_app, length_app. Qed.

Lemma tabTurn_attempts (b : Browser) (subdomain : string) (tab : nat) (p : Pool) :
  attemptsMade (pubLog p) <= RETRY_LIMIT * length (claims p)
  /\ length (claims p) <= taskIndex (queue p) <= length (taskQueue (queue p)) ->
  let p1 := tabTurn b subdomain tab p in
  attemptsMade (pubLog p1) <= RETRY_LIMIT * length (claims p1)
  /\ length (claims p1) <= taskIndex (queue p1) <= length (taskQueue (queue p1)).
Proof.
  intros (Hatt & Hcl & Hidx). unfold tabTurn.
  destruct (loginOk b subdomain); cbn [negb]; [|done].
  destruct (exited p !! (subdomain, tab)); [done|].
  destruct p as [[l k] ex cl vis lg].
  cbn [queue taskQueue taskIndex exited claims visited pubLog] in *.
  unfold RETRY_LIMIT in *.
  remember (attemptsMade lg) as n eqn:Hn.
  destruct (l !! k) as [x|] eqn:Hx.
  - rewrite (getNextTask_in_range _ _ _ Hx).
    apply lookup_lt_Some in Hx.
    destruct (Js.falsy (Some x)).
    { cbn [queue taskQueue taskIndex claims pubLog].
      rewrite attemptsMade_app, <- Hn. cbn. lia. }
    cbn [default from_option]. unfold id.
    destruct (gotoOk b (replaceHost subdomain x)).
    + destruct (isModuleInWarning (statusProbe b (replaceHost subdomain x))).
      * destruct (processPublishPage_total
                    (publishAttempt b (replaceHost subdomain x))
                    (replaceHost subdomain x)) as (e & _ & _ & _ & Hle).
        destruct (processPublishPage (publishAttempt b (replaceHost subdomain x))
                    (replaceHost subdomain x)) as [r lg2].
        cbn [snd] in Hle. unfold RETRY_LIMIT in Hle.
        remember (attemptsMade lg2) as n2 eqn:Hn2.
        cbn [queue taskQueue taskIndex claims pubLog].
        rewrite !attemptsMade_app, length_app, <- Hn, <- Hn2. cbn. lia.
      * cbn [queue taskQueue taskIndex claims pubLog].
        rewrite !attemptsMade_app, length_app, <- Hn. cbn. lia.
    + cbn [queue taskQueue taskIndex claims pubLog].
      rewrite !attemptsMade_app, length_app, <- Hn. cbn. lia.
  - apply lookup_ge_None in Hx.
    rewrite (getNextTask_exhausted _ _ Hx).
    cbn [Js.falsy queue taskQueue taskIndex claims pubLog].
    rewrite attemptsMade_app, <- Hn. cbn. lia.
Qed.

Lemma tabTurn_no_warning (b : Browser) (subdomain : string) (tab : nat) (p : Pool) :
  (forall address, isModuleInWarning (statusProbe b address) = false) ->
  attemptsMade (pubLog p) = 0 ->
  attemptsMade (pubLog (tabTurn b subdomain tab p)) = 0.
Proof.
  intros Hquiet Hzero. unfold tabTurn.
  destruct (loginOk b subdomain); cbn [negb]; [|done].
  destruct (exited p !! (subdomain, tab)); [done|].
  destruct (getNextTask (queue p)) as [task q].
  destruct (Js.falsy task).
  { cbn [pubLog]. rewrite attemptsMade_app, Hzero. done. }
  rewrite Hquiet.
  destruct (gotoOk b _); cbn [pubLog]; rewrite !attemptsMade_app, Hzero; done.
Qed.

(** X8.  The work of a publish run is bounded: the retry loops make at most
    [RETRY_LIMIT] attempts per task taken, no more tasks are taken than the
    snapshot has records, and when no module is found in warning the publish
    procedure is never entered at all. *)
Theorem publish_attempts_are_bounded
    (ENV : string) (requestedLayers : option (list string))
    (snapshot : list ModuleRecord) (b : Browser) (schedule : list (string * nat)) :
  let p := processURLs ENV requestedLayers (Some snapshot) b schedule in
  attemptsMade (pubLog p) <= RETRY_LIMIT * length (claims p)
  /\ length (claims p) <= length snapshot
  /\ ((forall address, isModuleInWarning (statusProbe b address) = false) ->
      attemptsMade (pubLog p) = 0).
Proof.
  intros p.
  assert (Hlen : length (Cli.filterModulesByRequestedLayers snapshot requestedLayers).1
                 <= length snapshot).
  { destruct requestedLayers; cbn; [apply List.filter_length_le | done]. }
  unfold p, processURLs.
  destruct (Cli.filterModulesByRequestedLayers snapshot requestedLayers)
    as [filtered lg]. cbn [fst] in Hlen.
  cbn [queue taskQueue taskIndex exited claims visited pubLog app].
  set (start := {| queue := {| taskQueue := url <$> filtered; taskIndex := 0 |};
                   exited := ∅; claims := []; visited := []; pubLog := [] |}).
  assert (Hrun : forall schedule p0,
             attemptsMade (pubLog p0) <= RETRY_LIMIT * length (claims p0)
             /\ length (claims p0) <= taskIndex (queue p0)
                <= length (taskQueue (queue p0)) ->
             let p1 := runSchedule ENV b schedule p0 in
             attemptsMade (pubLog p1) <= RETRY_LIMIT * length (claims p1)
             /\ length (claims p1) <= taskIndex (queue p1)
                <= length (taskQueue (queue p1))).
  { unfold runSchedule. induction schedule0 as [|v s IH]; intros p0 Hp0; [done|].
    cbn [foldl]. apply IH. case_bool_decide; [by apply tabTurn_attempts | done]. }
  assert (Hquiet : (forall address, isModuleInWarning (statusProbe b address) = false) ->
                   forall schedule p0, attemptsMade (pubLog p0) = 0 ->
                   attemptsMade (pubLog (runSchedule ENV b schedule p0)) = 0).
  { intros Hq. unfold runSchedule.
    induction schedule0 as [|v s IH]; intros p0 Hp0; [done|].
    cbn [foldl]. apply IH. case_bool_decide; [by apply tabTurn_no_warning | done]. }
  destruct (Hrun schedule start) as (Hatt & Hcl & Hidx).
  { cbn. lia. }
  split; [done|]. split.
  - rewrite runSchedule_keeps_taskQueue in Hidx. cbn in Hidx.
    rewrite length_fmap in Hidx. lia.
  - intros Hq. by apply Hquiet.
Qed.

Lemma tabTurn_locked_out (b : Browser) (subdomain : string) (tab : nat) (p : Pool) :
  loginOk b subdomain = false -> tabTurn b subdomain tab p = p.
Proof. intros Hl. unfold tabTurn. by rewrite Hl. Qed.

Lemma tabTurn_claims_logged_in (b : Browser) (subdomain : string) (tab : nat) (p : Pool) :
  Forall (fun c => loginOk b (claimSubdomain c) = true) (claims p)
  /\ (forall k, is_Some (exited p !! k) -> loginOk b k.1 = true) ->
  let p1 := tabTurn b subdomain tab p in
  Forall (fun c => loginOk b (claimSubdomain c) = true) (claims p1)
  /\ (forall k, is_Some (exited p1 !! k) -> loginOk b k.1 = true).
Proof.
  intros [Hcl Hex]. unfold tabTurn.
  destruct (loginOk b subdomain) eqn:Hl; cbn [negb]; [|done].
  destruct (exited p !! (subdomain, tab)); [done|].
  destruct (getNextTask (queue p)) as [task q].
  assert (Hins : forall e k, is_Some (<[(subdomain, tab) := e]> (exited p) !! k) ->
                             loginOk b k.1 = true).
  { intros e k. rewrite lookup_insert. case_decide as Hk; [by subst k | apply Hex]. }
  assert (Hadd : forall x, Forall (fun c => loginOk b (claimSubdomain c) = true)
                             (claims p ++ [mkClaim subdomain tab x])).
  { intros x. apply Forall_app. split; [done|]. by repeat constructor. }
  destruct (Js.falsy task); [by split; [|apply Hins]|].
  destruct (gotoOk b _); [|by split; [apply Hadd | apply Hins]].
  destruct (isModuleInWarning _); [destruct (processPublishPage _ _)|];
    by split; [apply Hadd|].
Qed.

(** X9.  A group whose login fails is out of the run and alone in that:
    none of its tabs takes a task or leaves a trace, and the run is the one
    the other groups would have made had the tabs of that group never been
    scheduled. *)
Theorem failed_login_isolates_the_group
    (ENV : string) (requestedLayers : option (list string))
    (file : option (list ModuleRecord)) (b : Browser)
    (schedule : list (string * nat)) (subdomain : string) :
  loginOk b subdomain = false ->
  let p := processURLs ENV requestedLayers file b schedule in
  claimedBy subdomain p = []
  /\ (forall tab, exited p !! (subdomain, tab) = None)
  /\ p = processURLs ENV requestedLayers file b
           (List.filter (fun v => negb (String.eqb v.1 subdomain)) schedule).
Proof.
  intros Hlogin p.
  assert (Hrun : forall schedule p0,
             runSchedule ENV b schedule p0 =
             runSchedule ENV b
               (List.filter (fun v => negb (String.eqb v.1 subdomain)) schedule) p0).
  { unfold runSchedule. induction schedule0 as [|v s IH]; intros p0; [done|].
    cbn [foldl List.filter].
    destruct (String.eqb_spec v.1 subdomain) as [Hv|Hv]; cbn [negb].
    - rewrite <- IH. f_equal. case_bool_decide; [|done].
      apply tabTurn_locked_out. by rewrite Hv.
    - cbn [foldl]. apply IH. }
  assert (Hinv : forall schedule p0,
             Forall (fun c => loginOk b (claimSubdomain c) = true) (claims p0)
             /\ (forall k, is_Some (exited p0 !! k) -> loginOk b k.1 = true) ->
             let p1 := runSchedule ENV b schedule p0 in
             Forall (fun c => loginOk b (claimSubdomain c) = true) (claims p1)
             /\ (forall k, is_Some (exited p1 !! k) -> loginOk b k.1 = true)).
  { unfold runSchedule. induction schedule0 as [|v s IH]; intros p0 Hp0; [done|].
    cbn [foldl]. apply IH. case_bool_decide; [by apply tabTurn_claims_logged_in | done]. }
  assert (Hp : Forall (fun c => loginOk b (claimSubdomain c) = true) (claims p)
               /\ (forall k, is_Some (exited p !! k) -> loginOk b k.1 = true)).
  { unfold p, processURLs. destruct file as [moduleData|].
    - destruct (Cli.filterModulesByRequestedLayers moduleData requestedLayers).
      apply Hinv. cbn. split; [constructor|].
      intros k [? H]. by rewrite lookup_empty in H.
    - cbn. split; [constructor|]. intros k [? H]. by rewrite lookup_empty in H. }
  destruct Hp as [Hcl Hex]. split; [|split].
  - unfold claimedBy. rewrite filter_none; [done|].
    intros c Hc. rewrite Forall_forall in Hcl. specialize (Hcl c Hc).
    apply String.eqb_neq. intros Heq. congruence.
  - intros tab. destruct (exited p !! (subdomain, tab)) eqn:Hk; [|done].
    assert (Hs : is_Some (exited p !! (subdomain, tab))) by (rewrite Hk; eauto).
    apply Hex in Hs. cbn in Hs. congruence.
  - unfold p, processURLs. destruct file as [moduleData|]; [|done].
    destruct (Cli.filterModulesByRequestedLayers moduleData requestedLayers).
    apply Hrun.
Qed.

Lemma failed_login_isolates_the_group_witness :
  let p := processURLs "dev" None (Some Sample.two_records)
             (Scenario.lockedOut "dev") (roundRobin "dev" 3) in
  claimedBy "dev" p = []
  /\ (forall tab, exited p !! ("dev", tab) = None)
  /\ p = processURLs "dev" None (Some Sample.two_records) (Scenario.lockedOut "dev")
           (List.filter (fun v => negb (String.eqb v.1 "dev")) (roundRobin "dev" 3)).
Proof.
  apply (failed_login_isolates_the_group "dev" None (Some Sample.two_records)
           (Scenario.lockedOut "dev") (roundRobin "dev" 3) "dev").
  reflexivity.
Defined.

End PoolAccounting.

(** ** The retry loops in general *)
Section RetryInGeneral.
Import Publisher.

(** X10.  A retry loop stops at the first attempt that does not fail: if
    the attempts before the [k]-th all fail and the [k]-th succeeds
    ([k] below [RETRY_LIMIT], counted from 0), the loop returns that success
    after exactly [k + 1] attempts, and its log does not depend on what
    later attempts would have done. *)
Theorem retry_stops_at_first_success
    (url : string) (goto : nat -> bool) (attempt : nat -> Attempt) (k : nat) :
  k < RETRY_LIMIT ->
  (forall j, j < k -> goto j = false /\ attempt j = AttemptThrows) ->
  goto k = true ->
  attempt k <> AttemptThrows ->
  (navigateWithRetries goto url).1 = Some (Some true)
  /\ attemptsMade (navigateWithRetries goto url).2 = S k
  /\ (processPublishPage attempt url).1 =
     Some (match attempt k with
           | AttemptPublishes => PublishStarted
           | _ => NothingToPublish
           end)
  /\ attemptsMade (processPublishPage attempt url).2 = S k
  /\ (forall goto' attempt',
        (forall j, j <= k -> goto' j = goto j /\ attempt' j = attempt j) ->
        navigateWithRetries goto' url = navigateWithRetries goto url
        /\ processPublishPage attempt' url = processPublishPage attempt url).
Proof.
  unfold RETRY_LIMIT. intros Hk Hbefore Hgoto Hattempt.
  unfold navigateWithRetries, processPublishPage.
  destruct k as [|[|[|k]]]; [| | |lia].
  - cbn. rewrite Hgoto. destruct (attempt 0) eqn:Ha; [done|..];
      (do 4 (split; [done|]);
       intros goto' attempt' Hsame; destruct (Hsame 0 (le_n _)) as [-> ->];
       split; cbn; by rewrite ?Hgoto, ?Ha).
  - destruct (Hbefore 0) as [G0 A0]; [lia|].
    cbn. rewrite G0, A0, Hgoto. cbn.
    destruct (attempt 1) eqn:Ha; [done|..];
      (do 4 (split; [done|]);
       intros goto' attempt' Hsame;
       destruct (Hsame 0) as [-> ->]; [lia|];
       destruct (Hsame 1) as [-> ->]; [lia|];
       split; cbn; by rewrite ?G0, ?A0, ?Hgoto, ?Ha).
  - destruct (Hbefore 0) as [G0 A0]; [lia|].
    destruct (Hbefore 1) as [G1 A1]; [lia|].
    cbn. rewrite G0, A0, G1, A1, Hgoto. cbn.
    destruct (attempt 2) eqn:Ha; [done|..];
      (do 4 (split; [done|]);
       intros goto' attempt' Hsame;
       destruct (Hsame 0) as [-> ->]; [lia|];
       destruct (Hsame 1) as [-> ->]; [lia|];
       destruct (Hsame 2) as [-> ->]; [lia|];
       split; cbn; by rewrite ?G0, ?A0, ?G1, ?A1, ?Hgoto, ?Ha).
Qed.

Lemma retry_stops_at_first_success_witness :
  (navigateWithRetries Scenario.second_time_lucky "https://dev.wodify.com/x").1
  = Some (Some true)
  /\ attemptsMade
       (navigateWithRetries Scenario.second_time_lucky "https://dev.wodify.com/x").2 = 2.
Proof.
  destruct (retry_stops_at_first_success "https://dev.wodify.com/x"
              Scenario.second_time_lucky
              (fun j => if (j <? 1)%nat then AttemptThrows else AttemptFindsNothing) 1)
    as (H1 & H2 & _).
  - unfold RETRY_LIMIT. lia.
  - intros j Hj. assert (j = 0) as -> by lia. by split.
  - reflexivity.
  - discriminate.
  - by split.
Defined.

End RetryInGeneral.

(** ** The address rewrite, composed *)
Section RewriteTwice.
Import Publisher.

Lemma spanNotDot_spec (s : string) :
  let '(label, rest) := spanNotDot s in
  s = label +:+ rest
  /\ Js.includes label "." = false
  /\ (rest = "" \/ exists rest', rest = String "." rest').
Proof.
  induction s as [|c s IH]; [by repeat split; left|].
  cbn [spanNotDot]. destruct (Ascii.eqb_spec c ".") as [->|Hc].
  - repeat split. right. by eexists.
  - destruct (spanNotDot s) as [label rest]. destruct IH as (-> & Hfree & Hrest).
    repeat split; [|done].
    cbn [Js.includes Js.startsWith]. rewrite Hfree, andb_true_r, orb_false_r.
    apply Ascii.eqb_neq. congruence.
Qed.

Lemma spanNotDot_own_label (label rest : string) :
  Js.includes label "." = false ->
  rest = "" \/ (exists rest', rest = String "." rest') ->
  spanNotDot (label +:+ rest) = (label, rest).
Proof.
  intros Hfree Hrest. induction label as [|c label IH].
  - rewrite append_empty. by destruct Hrest as [->|[rest' ->]].
  - apply includes_dot_cons in Hfree as [Hc Hfree].
    rewrite append_String. cbn [spanNotDot]. by rewrite Hc, (IH Hfree).
Qed.

(** X11.  The rewrite only ever touches the first host label, so it can be
    repeated and the last subdomain wins: rewriting an address for one
    group and then for another gives what rewriting it for the second group
    alone gives; in particular rewriting twice for the same group changes
    nothing.  Subdomains are host labels: not empty and without a dot; and
    they hold no "$", the character that [replace] gives a meaning to in a
    replacement text. *)
Theorem rewrite_for_another_group (first second task : string) :
  first <> "" ->
  Js.includes first "." = false ->
  Js.includes first "$" = false ->
  Js.includes second "$" = false ->
  replaceHost second (replaceHost first task) = replaceHost second task
  /\ replaceHost first (replaceHost first task) = replaceHost first task.
Proof.
  intros Hne Hfree _ _.
  assert (Hgen : forall other,
             replaceHost other (replaceHost first task) = replaceHost other task).
  { intros other. unfold replaceHost at 2 3.
    destruct (dropPrefix "https://" task) as [afterScheme|] eqn:Hdrop.
    2: { unfold replaceHost. by rewrite Hdrop. }
    pose proof (spanNotDot_spec afterScheme) as Hspan.
    destruct (spanNotDot afterScheme) as [[|c label] rest] eqn:Hs.
    { unfold replaceHost. by rewrite Hdrop, Hs. }
    destruct Hspan as (_ & _ & Hrest).
    unfold replaceHost.
    rewrite (dropPrefix_app "https://" (first +:+ rest)).
    rewrite (spanNotDot_own_label first rest Hfree Hrest).
    by destruct first. }
  split; apply Hgen.
Qed.

Lemma rewrite_for_another_group_witness :
  replaceHost "dev-coreap"
    (replaceHost "dev" "https://devsc.wodify.com/ServiceCenter/eSpace_Edit.aspx?eSpaceId=7")
  = replaceHost "dev-coreap"
      "https://devsc.wodify.com/ServiceCenter/eSpace_Edit.aspx?eSpaceId=7"
  /\ replaceHost "dev"
       (replaceHost "dev" "https://devsc.wodify.com/ServiceCenter/eSpace_Edit.aspx?eSpaceId=7")
     = replaceHost "dev" "https://devsc.wodify.com/ServiceCenter/eSpace_Edit.aspx?eSpaceId=7".
Proof.
  apply (rewrite_for_another_group "dev" "dev-coreap"
           "https://devsc.wodify.com/ServiceCenter/eSpace_Edit.aspx?eSpaceId=7").
  - discriminate.
  - reflexivity.
  - reflexivity.
  - reflexivity.
Defined.

End RewriteTwice.

(** ** Start-up of the scripts *)
Section ScriptStartup.
Import Startup.

Lemma environmentIncomplete_spec (env : Environment) :
  environmentIncomplete env = false <->
  exists user password name,
    WODIFY_USERNAME env = Some user /\ user <> ""
    /\ WODIFY_PASSWORD env = Some password /\ password <> ""
    /\ WODIFY_ENV env = Some name /\ name <> "".
Proof.
  unfold environmentIncomplete, Js.falsy.
  rewrite !orb_false_iff.
  destruct (WODIFY_USERNAME env) as [u|], (WODIFY_PASSWORD env) as [pw|],
    (WODIFY_ENV env) as [e|];
    try (split; [by intros [[? ?] ?] | by intros (? & ? & ? & ? & ? & ? & ? & ? & ?)]).
  rewrite !String.eqb_neq. split.
  - intros [[? ?] ?]. by exists u, pw, e.
  - intros (? & ? & ? & [= <-] & ? & [= <-] & ? & [= <-] & ?). done.
Qed.

Lemma publisher_start (env : Environment) (args : list string)
    (file0 : option (list ModuleRecord)) (b : Publisher.Browser)
    (schedule : list (string * nat)) :
  publisher env args file0 b schedule =
  (if environmentIncomplete env then MissingEnvironment
   else if helpRequested args then HelpShown
   else Completed (Publisher.main (default "" (WODIFY_ENV env)) args file0 b schedule)).
Proof.
  unfold publisher.
  destruct (environmentIncomplete env) eqn:Henv; [done|].
  destruct (helpRequested args); [done|].
  unfold environmentIncomplete in Henv.
  apply orb_false_iff in Henv as [-> _]. done.
Qed.

(** X12.  Both scripts check the environment before anything else: with a
    variable unset or empty they throw, even when help is asked for; with a
    complete environment a help flag anywhere among the arguments ends the
    script before any work; otherwise both run, the publisher for the
    environment named by the variable.  The publisher's second check of the
    credentials can never fail. *)
Theorem scripts_start_in_order
    (localeCompare : string -> string -> Z) (env : Environment) (args : list string)
    (c : Scanner.Console) (file0 : option (list ModuleRecord))
    (b : Publisher.Browser) (schedule : list (string * nat)) :
  (environmentIncomplete env = false <->
   exists user password name,
     WODIFY_USERNAME env = Some user /\ user <> ""
     /\ WODIFY_PASSWORD env = Some password /\ password <> ""
     /\ WODIFY_ENV env = Some name /\ name <> "")
  /\ (helpRequested args = true <-> "-h" ∈ args \/ "--help" ∈ args)
  /\ publisher env args file0 b schedule <> MissingCredentials
  /\ (environmentIncomplete env = true ->
      scanner localeCompare env args c file0 = MissingEnvironment
      /\ publisher env args file0 b schedule = MissingEnvironment)
  /\ (environmentIncomplete env = false -> helpRequested args = true ->
      scanner localeCompare env args c file0 = HelpShown
      /\ publisher env args file0 b schedule = HelpShown)
  /\ (environmentIncomplete env = false -> helpRequested args = false ->
      exists name,
        WODIFY_ENV env = Some name /\ name <> ""
        /\ scanner localeCompare env args c file0 =
           Completed (Scanner.main localeCompare args c file0)
        /\ publisher env args file0 b schedule =
           Completed (Publisher.main name args file0 b schedule)).
Proof.
  split; [apply environmentIncomplete_spec|]. split.
  { unfold helpRequested, Js.arrayIncludes.
    by rewrite orb_true_iff, !bool_decide_eq_true. }
  rewrite publisher_start. unfold scanner.
  split; [by destruct (environmentIncomplete env), (helpRequested args)|].
  split; [by intros ->|]. split; [by intros -> ->|].
  intros Henv Hhelp. rewrite Henv, Hhelp.
  apply environmentIncomplete_spec in Henv as (? & ? & name & _ & _ & _ & _ & Hname & Hne).
  exists name. by rewrite Hname.
Qed.

End ScriptStartup.

(** ** The snapshot file between the two scripts *)
Section SnapshotHandOff.

Lemma list_ascii_of_string_append (s t : string) :
  list_ascii_of_string (s +:+ t) = list_ascii_of_string s ++ list_ascii_of_string t.
Proof.
  induction s as [|c s IH]; [done|].
  rewrite append_String. cbn. by rewrite IH.
Qed.

Lemma resolve_inj (dir1 dir2 file : string) :
  Files.resolve dir1 file = Files.resolve dir2 file -> dir1 = dir2.
Proof.
  unfold Files.resolve. intros Heq.
  apply (f_equal list_ascii_of_string) in Heq.
  rewrite !list_ascii_of_string_append in Heq.
  apply app_inv_tail in Heq.
  rewrite <- (string_of_list_ascii_of_string dir1),
          <- (string_of_list_ascii_of_string dir2).
  by rewrite Heq.
Qed.

Lemma scanModules_leaves_none (localeCompare : string -> string -> Z)
    (requestedLayers : option (list string)) (c : Scanner.Console)
    (file0 : option (list ModuleRecord)) :
  Scanner.snapshotFile (Scanner.scanModules localeCompare requestedLayers c file0) = None ->
  file0 = None.
Proof.
  intros Hnone.
  destruct (scanModules_snapshot localeCompare requestedLayers c file0)
    as [H|(? & ? & _ & _ & H)]; congruence.
Qed.

Lemma main_snapshotFile (localeCompare : string -> string -> Z) (args : list string)
    (c : Scanner.Console) (file0 : option (list ModuleRecord)) :
  Scanner.snapshotFile (Scanner.main localeCompare args c file0) =
  Scanner.snapshotFile
    (Scanner.scanModules localeCompare (Cli.parseRequestedLayers args).1 c file0).
Proof.
  unfold Scanner.main. destruct (Cli.parseRequestedLayers args) as [layers lg].
  cbn [fst]. by destruct (Scanner.settled _) as [[?|]|].
Qed.

Lemma runScanner_other_files (localeCompare : string -> string -> Z)
    (env : Startup.Environment) (args : list string) (c : Scanner.Console)
    (cwd : string) (fs : gmap string (list ModuleRecord)) (path : string) :
  path <> Files.resolve cwd Files.OUTPUT_FILE ->
  (Files.runScanner localeCompare env args c cwd fs).2 !! path = fs !! path.
Proof.
  intros Hpath. unfold Files.runScanner.
  destruct (Startup.scanner _ _ _ _ _) as [| | |run]; try done. cbn.
  destruct (Scanner.snapshotFile run); [|done].
  by apply lookup_insert_ne.
Qed.

Lemma runScanner_own_file (localeCompare : string -> string -> Z)
    (env : Startup.Environment) (args : list string) (c : Scanner.Console)
    (cwd : string) (fs : gmap string (list ModuleRecord)) (run : Scanner.ScanRun) :
  (Files.runScanner localeCompare env args c cwd fs).1 = Startup.Completed run ->
  (Files.runScanner localeCompare env args c cwd fs).2
    !! Files.resolve cwd Files.OUTPUT_FILE = Scanner.snapshotFile run.
Proof.
  unfold Files.runScanner.
  destruct (Startup.scanner localeCompare env args c
              (fs !! Files.resolve cwd Files.OUTPUT_FILE)) as [| | |run'] eqn:Hs;
    try done.
  cbn. intros [= ->].
  destruct (Scanner.snapshotFile run) as [modules|] eqn:Hfile;
    [by rewrite lookup_insert_eq|].
  unfold Startup.scanner in Hs.
  destruct (Startup.environmentIncomplete env); [done|].
  destruct (Startup.helpRequested args); [done|].
  injection Hs as <-. rewrite main_snapshotFile in Hfile.
  by apply scanModules_leaves_none in Hfile.
Qed.

(** X13.  The scanner writes the snapshot under the working directory and
    touches no other file; the publisher reads it next to the script.  The
    hand-off therefore depends on the two directories: when they are the
    same the publisher gets what the scan left, and when they differ it gets
    the file of its own directory as it was before the scan. *)
Theorem snapshot_handoff_needs_one_directory
    (localeCompare : string -> string -> Z) (env : Startup.Environment)
    (args args' : list string) (c : Scanner.Console) (b : Publisher.Browser)
    (schedule : list (string * nat)) (cwd dirname : string)
    (fs : gmap string (list ModuleRecord)) :
  let scanned := (Files.runScanner localeCompare env args c cwd fs).1 in
  let fs1 := (Files.runScanner localeCompare env args c cwd fs).2 in
  (forall path, path <> Files.resolve cwd Files.OUTPUT_FILE -> fs1 !! path = fs !! path)
  /\ (forall run, scanned = Startup.Completed run ->
                  fs1 !! Files.resolve cwd Files.OUTPUT_FILE = Scanner.snapshotFile run)
  /\ (cwd = dirname ->
      forall run, scanned = Startup.Completed run ->
                  Files.runPublisher env args' dirname fs1 b schedule =
                  Startup.publisher env args' (Scanner.snapshotFile run) b schedule)
  /\ (cwd <> dirname ->
      Files.runPublisher env args' dirname fs1 b schedule =
      Files.runPublisher env args' dirname fs b schedule).
Proof.
  intros scanned fs1.
  split; [intros path; apply runScanner_other_files|].
  split; [intros run; apply runScanner_own_file|]. split.
  - intros <- run Hrun. unfold Files.runPublisher, fs1.
    by rewrite (runScanner_own_file _ _ _ _ _ _ run Hrun).
  - intros Hdir. unfold Files.runPublisher, fs1.
    rewrite runScanner_other_files; [done|].
    intros Heq. apply Hdir. symmetry. by eapply resolve_inj.
Qed.

(** X14.  In a scheduled cycle (scanner, then publisher, both without
    arguments and in one directory) a scan whose accumulation throws leaves
    the publisher with the snapshot of an earlier scan: the file is
    unchanged and the task queue of the cycle is made of the urls of that
    old file. *)
Theorem failed_scan_republishes_the_old_snapshot
    (localeCompare : string -> string -> Z) (env : Startup.Environment)
    (c : Scanner.Console) (b : Publisher.Browser) (schedule : list (string * nat))
    (dir : string) (fs : gmap string (list ModuleRecord))
    (accumulated old : list ModuleRecord) :
  Startup.environmentIncomplete env = false ->
  (Scanner.scrapeModulesWithWarnings (Scanner.listing c) (Scanner.recheck c)).1
  = Scanner.Threw accumulated ->
  fs !! Files.resolve dir Files.OUTPUT_FILE = Some old ->
  exists pool,
    (Scheduled.cycle localeCompare env c b schedule dir dir fs).1.2
    = Startup.Completed pool
    /\ (Scheduled.cycle localeCompare env c b schedule dir dir fs).2
         !! Files.resolve dir Files.OUTPUT_FILE = Some old
    /\ Publisher.taskQueue (Publisher.queue pool) = url <$> old.
Proof.
  intros Henv Hthrew Hold. unfold Scheduled.cycle.
  pose proof (runScanner_own_file localeCompare env [] c dir fs) as Hleft.
  destruct (Files.runScanner localeCompare env [] c dir fs) as [scanned fs1] eqn:Hrun.
  cbn [fst snd] in *.
  assert (Hscanned : scanned =
            Startup.Completed (Scanner.main localeCompare [] c (Some old))).
  { unfold Files.runScanner in Hrun. rewrite Hold in Hrun.
    unfold Startup.scanner in Hrun. rewrite Henv in Hrun.
    change (Startup.helpRequested []) with false in Hrun.
    cbv iota in Hrun. congruence. }
  assert (Hfile : Scanner.snapshotFile (Scanner.main localeCompare [] c (Some old))
                  = Some old).
  { rewrite main_snapshotFile.
    by destruct (scanModules_discards_when_scraper_throws localeCompare
                   (Cli.parseRequestedLayers []).1 c (Some old) accumulated Hthrew). }
  specialize (Hleft _ Hscanned). rewrite Hfile in Hleft.
  unfold Files.runPublisher. rewrite Hleft, publisher_start, Henv.
  change (Startup.helpRequested []) with false. cbv iota.
  eexists. split; [done|]. split; [done|].
  unfold Publisher.main.
  change (Cli.parseRequestedLayers []) with (@None (list string), @nil LogEvent).
  cbv iota beta.
  by rewrite processURLs_taskQueue.
Qed.

Lemma failed_scan_republishes_the_old_snapshot_witness :
  exists pool,
    (Scheduled.cycle Sample.codeUnitCompare Scenario.complete_environment
       Sample.stuck_console Publisher.calmBrowser (Publisher.roundRobin "dev" 1)
       "/srv/republisher" "/srv/republisher"
       {[ Files.resolve "/srv/republisher" Files.OUTPUT_FILE := Scenario.old_snapshot ]}).1.2
    = Startup.Completed pool
    /\ (Scheduled.cycle Sample.codeUnitCompare Scenario.complete_environment
          Sample.stuck_console Publisher.calmBrowser (Publisher.roundRobin "dev" 1)
          "/srv/republisher" "/srv/republisher"
          {[ Files.resolve "/srv/republisher" Files.OUTPUT_FILE := Scenario.old_snapshot ]}).2
         !! Files.resolve "/srv/republisher" Files.OUTPUT_FILE = Some Scenario.old_snapshot
    /\ Publisher.taskQueue (Publisher.queue pool) = url <$> Scenario.old_snapshot.
Proof.
  apply (failed_scan_republishes_the_old_snapshot Sample.codeUnitCompare
           Scenario.complete_environment Sample.stuck_console Publisher.calmBrowser
           (Publisher.roundRobin "dev" 1) "/srv/republisher"
           {[ Files.resolve "/srv/republisher" Files.OUTPUT_FILE := Scenario.old_snapshot ]}
           [mkModule "a" "X_OS" "OS"; mkModule "b" "Y_UI" "UI"] Scenario.old_snapshot).
  - reflexivity.
  - vm_compute. reflexivity.
  - apply lookup_singleton_eq.
Defined.

End SnapshotHandOff.

(** ** The scheduler *)
Section SchedulerOrder.
Import Scheduled.

(** X15.  Whatever the two children report (an error, output, both or
    nothing), one run of the scheduler starts the scanner, waits for it to
    finish, and only then starts the publisher, once: a failed scan does not
    keep the publisher from running. *)
Theorem republisher_follows_the_scanner (scannerChild republisherChild : ChildResult) :
  List.filter (fun e => match e with
                        | SchedStarting _ | SchedFinished _ => true
                        | _ => false
                        end)
    (runBoth scannerChild republisherChild)
  = [SchedStarting "Warning Scanner"; SchedFinished "Warning Scanner";
     SchedStarting "Module Republisher"; SchedFinished "Module Republisher"]
  /\ (forall e, e ∈ runBoth scannerChild republisherChild ->
        match e with
        | SchedError name message =>
            (name = "Warning Scanner" /\ childError scannerChild = Some message)
            \/ (name = "Module Republisher" /\ childError republisherChild = Some message)
        | SchedOutput name out =>
            out <> ""
            /\ ((name = "Warning Scanner" /\ childStdout scannerChild = out)
                \/ (name = "Module Republisher" /\ childStdout republisherChild = out))
        | SchedStderr name err =>
            err <> ""
            /\ ((name = "Warning Scanner" /\ childStderr scannerChild = err)
                \/ (name = "Module Republisher" /\ childStderr republisherChild = err))
        | _ => True
        end).
Proof.
  unfold runBoth, runScript, Js.falsy.
  destruct scannerChild as [e1 o1 r1], republisherChild as [e2 o2 r2].
  cbn [childError childStdout childStderr default from_option].
  destruct (String.eqb_spec o1 "") as [Ho1|Ho1], (String.eqb_spec r1 "") as [Hr1|Hr1],
    (String.eqb_spec o2 "") as [Ho2|Ho2], (String.eqb_spec r2 "") as [Hr2|Hr2],
    e1 as [m1|], e2 as [m2|];
    (split; [reflexivity|]);
    intros ev Hev; cbn in Hev;
    repeat (apply elem_of_cons in Hev as [->|Hev]; [naive_solver|]);
    by apply elem_of_nil in Hev.
Qed.

End SchedulerOrder.
